(** * Verification model of the valedate harness (src/valedate/harness.py)

    A shallow embedding of the parts of the harness the specification
    describes: the decoding of Vale's JSON output into [ValeDiagnostic]
    records, the rendering of mapping-based ini input, the forcing of the
    [StylesPath] directive, the process driver [_run] and the sandbox
    lifecycle of [Valedate.__init__] and [Valedate.cleanup]; and the
    assertion helpers of src/valedate/assertions.py over the decoded
    diagnostics. *)

From Stdlib Require Import String Ascii List ZArith Bool Lia.
Import ListNotations.
Open Scope string_scope.
Open Scope list_scope.
Open Scope Z_scope.

Set Warnings "-register-all,-abstract-large-number".

Infix "+++" := String.append (at level 60, right associativity).

(** ** Python values

    The values that [msgspec.json.decode] produces and that a caller can
    place in an ini mapping.  Python strings are modelled as [string]
    (each character a code point below 256); JSON numbers with a
    fractional part are not modelled.  A [dict] is an association list
    with pairwise distinct keys, in insertion order. *)

Inductive pyval : Type :=
| VNone
| VBool (b : bool)
| VInt (z : Z)
| VStr (s : string)
| VList (l : list pyval)
| VTuple (l : list pyval)
| VDict (kv : list (string * pyval)).

(** The exceptions the modelled code can raise. *)
Inductive exn : Type :=
| ValidationError                 (* msgspec.ValidationError *)
| DecodeError                     (* msgspec.DecodeError *)
| KeyError (k : string)
| TypeError (msg : string)
| InvalidIniSectionError (section : string)
| UnsupportedIniInputError
| StylesTreeMissingError (p : list string)
| StylesTreeTypeError (p : list string)
| ValeExecutionError (exit_code : Z) (stderr : list Z)
| ValeBinaryNotFoundError (binary : string)
| FileNotFoundError (p : list string)
| IsADirectoryError (p : list string)
| FileExistsError
| UnicodeDecodeError
| OSError.

Inductive res (A : Type) : Type :=
| Ok (a : A)
| Err (e : exn).
Arguments Ok {A} a.
Arguments Err {A} e.

Definition res_bind {A B} (r : res A) (k : A -> res B) : res B :=
  match r with Ok a => k a | Err e => Err e end.

Notation "x <-? r ;; k" := (res_bind r (fun x => k))
  (at level 61, r at next level, right associativity).

Fixpoint mapR {A B} (f : A -> res B) (l : list A) : res (list B) :=
  match l with
  | [] => Ok []
  | x :: l' => y <-? f x ;; ys <-? mapR f l' ;; Ok (y :: ys)
  end.

(** [dict.get]: keys are distinct, so the first hit is the entry. *)
Fixpoint dict_get {A} (k : string) (d : list (string * A)) : option A :=
  match d with
  | [] => None
  | (k', v) :: d' => if String.eqb k k' then Some v else dict_get k d'
  end.

(** [d[k] = v]: an existing key keeps its position, a new key goes last. *)
Fixpoint dict_set {A} (k : string) (v : A) (d : list (string * A))
  : list (string * A) :=
  match d with
  | [] => [(k, v)]
  | (k', v') :: d' =>
      if String.eqb k k' then (k, v) :: d' else (k', v') :: dict_set k v d'
  end.

(** ** [str()] of a Python value *)

Definition chr (n : nat) : string := String (ascii_of_nat n) "".
Definition dq : string := chr 34.
Definition sq : string := chr 39.

Fixpoint digits_aux (fuel : nat) (n : N) (acc : string) : string :=
  match fuel with
  | O => acc
  | S f =>
      let acc' := String (ascii_of_N (48 + N.modulo n 10)) acc in
      if N.eqb (N.div n 10) 0 then acc' else digits_aux f (N.div n 10) acc'
  end.

Definition N_to_dec (n : N) : string := digits_aux (S (N.size_nat n)) n "".

Definition Z_to_dec (z : Z) : string :=
  if z <? 0 then "-" +++ N_to_dec (Z.to_N (- z)) else N_to_dec (Z.to_N z).

Fixpoint contains_char (c : ascii) (s : string) : bool :=
  match s with
  | EmptyString => false
  | String c' s' => Ascii.eqb c c' || contains_char c s'
  end.

Definition hexdig (n : N) : string :=
  if N.ltb n 10 then String (ascii_of_N (48 + n)) ""
  else String (ascii_of_N (87 + n)) "".

(** Python's [repr] of a string whose characters are code points below 256:
    single quotes unless the text has a single quote and no double quote,
    backslash escapes for the quote, backslash, tab, newline, return and
    the non-printable code points. *)
Definition repr_char (q : ascii) (c : ascii) : string :=
  let n := N_of_ascii c in
  if Ascii.eqb c q then String "\" (String c "")
  else if N.eqb n 92 then "\\"
  else if N.eqb n 9 then "\t"
  else if N.eqb n 10 then "\n"
  else if N.eqb n 13 then "\r"
  else if (N.leb 32 n && N.ltb n 127) || (N.leb 161 n && negb (N.eqb n 173))
  then String c ""
  else "\x" +++ hexdig (N.div n 16) +++ hexdig (N.modulo n 16).

Fixpoint repr_chars (q : ascii) (s : string) : string :=
  match s with
  | EmptyString => ""
  | String c s' => repr_char q c +++ repr_chars q s'
  end.

Definition repr_str (s : string) : string :=
  let q := if contains_char (ascii_of_nat 39) s
              && negb (contains_char (ascii_of_nat 34) s)
           then ascii_of_nat 34 else ascii_of_nat 39 in
  String q (repr_chars q s +++ String q "").

Fixpoint join (sep : string) (l : list string) : string :=
  match l with
  | [] => ""
  | [x] => x
  | x :: l' => x +++ sep +++ join sep l'
  end.

Fixpoint py_repr (v : pyval) : string :=
  match v with
  | VNone => "None"
  | VBool true => "True"
  | VBool false => "False"
  | VInt z => Z_to_dec z
  | VStr s => repr_str s
  | VList l => "[" +++ join ", " (map py_repr l) +++ "]"
  | VTuple [x] => "(" +++ py_repr x +++ ",)"
  | VTuple l => "(" +++ join ", " (map py_repr l) +++ ")"
  | VDict kv =>
      "{" +++ join ", " (map (fun '(k, x) => repr_str k +++ ": " +++ py_repr x) kv)
      +++ "}"
  end.

(** [str(v)]: the text itself for a string, [repr] otherwise. *)
Definition py_str (v : pyval) : string :=
  match v with VStr s => s | _ => py_repr v end.

(** ** The typed diagnostic records (msgspec Structs) *)

Record ValeAction : Type := {
  action_name : option string;          (* "Name" *)
  action_params : option (list string)  (* "Params" *)
}.

Record ValeDiagnostic : Type := {
  check : string;                       (* "Check", required *)
  message : string;                     (* "Message", required *)
  severity : string;                    (* "Severity", required *)
  line : option Z;                      (* "Line", default None *)
  span : Z * Z;                         (* "Span", default (0, 0) *)
  link : option string;                 (* "Link", default None *)
  description : option string;          (* "Description", default None *)
  match_ : option string;               (* "Match", default None *)
  action : option ValeAction            (* "Action", default None *)
}.

(** ** [msgspec.convert] into the Struct types

    msgspec converts a [dict] into a Struct field by field under the
    field's wire name; unknown keys are ignored, a missing field takes its
    default, a missing field without default and a value of the wrong type
    both raise [ValidationError].  [bool] is not accepted where [int] is
    expected; a [list[...]] or [tuple[...]] field accepts a list or a
    tuple. *)

Definition conv_str (v : pyval) : res string :=
  match v with VStr s => Ok s | _ => Err ValidationError end.

Definition conv_int (v : pyval) : res Z :=
  match v with VInt z => Ok z | _ => Err ValidationError end.

Definition conv_optional {A} (conv : pyval -> res A) (v : pyval) : res (option A) :=
  match v with VNone => Ok None | _ => a <-? conv v ;; Ok (Some a) end.

Definition conv_span (v : pyval) : res (Z * Z) :=
  match v with
  | VList [a; b] | VTuple [a; b] => x <-? conv_int a ;; y <-? conv_int b ;; Ok (x, y)
  | _ => Err ValidationError
  end.

Definition conv_str_list (v : pyval) : res (list string) :=
  match v with
  | VList l | VTuple l => mapR conv_str l
  | _ => Err ValidationError
  end.

Definition field_req {A} (name : string) (conv : pyval -> res A)
    (d : list (string * pyval)) : res A :=
  match dict_get name d with
  | Some v => conv v
  | None => Err ValidationError
  end.

Definition field_opt {A} (name : string) (default : A) (conv : pyval -> res A)
    (d : list (string * pyval)) : res A :=
  match dict_get name d with
  | Some v => conv v
  | None => Ok default
  end.

Definition conv_action (v : pyval) : res ValeAction :=
  match v with
  | VDict d =>
      n <-? field_opt "Name" None (conv_optional conv_str) d ;;
      p <-? field_opt "Params" None (conv_optional conv_str_list) d ;;
      Ok {| action_name := n; action_params := p |}
  | _ => Err ValidationError
  end.

Definition conv_diagnostic (v : pyval) : res ValeDiagnostic :=
  match v with
  | VDict d =>
      c <-? field_req "Check" conv_str d ;;
      m <-? field_req "Message" conv_str d ;;
      s <-? field_req "Severity" conv_str d ;;
      l <-? field_opt "Line" None (conv_optional conv_int) d ;;
      sp <-? field_opt "Span" (0, 0) conv_span d ;;
      lk <-? field_opt "Link" None (conv_optional conv_str) d ;;
      ds <-? field_opt "Description" None (conv_optional conv_str) d ;;
      mt <-? field_opt "Match" None (conv_optional conv_str) d ;;
      ac <-? field_opt "Action" None (conv_optional conv_action) d ;;
      Ok {| check := c; message := m; severity := s; line := l; span := sp;
            link := lk; description := ds; match_ := mt; action := ac |}
  | _ => Err ValidationError
  end.

(** [_to_alerts]: [msgspec.convert(seq, type=list[ValeDiagnostic])]. *)
Definition _to_alerts (seq : pyval) : res (list ValeDiagnostic) :=
  match seq with
  | VList l | VTuple l => mapR conv_diagnostic l
  | _ => Err ValidationError
  end.

(** ** [_decode_vale_json], after [msjson.decode]

    [file_obj["Path"]] on a [dict] raises [KeyError] when the key is
    missing; on any other value it raises [TypeError] (lists and tuples
    want integer indices, the scalars are not subscriptable). *)

Definition getitem (v : pyval) (k : string) : res pyval :=
  match v with
  | VDict d => match dict_get k d with Some x => Ok x | None => Err (KeyError k) end
  | _ => Err (TypeError "subscript")
  end.

Definition has_path_and_alerts (first : pyval) : bool :=
  match first with
  | VDict d =>
      match dict_get "Path" d, dict_get "Alerts" d with
      | Some _, Some _ => true
      | _, _ => false
      end
  | _ => false
  end.

(** The loop over the per-file objects, threading [output]. *)
Fixpoint decode_files (output : list (string * list ValeDiagnostic))
    (files : list pyval) : res (list (string * list ValeDiagnostic)) :=
  match files with
  | [] => Ok output
  | file_obj :: rest =>
      p <-? getitem file_obj "Path" ;;
      a <-? getitem file_obj "Alerts" ;;
      alerts <-? _to_alerts a ;;
      decode_files (dict_set (py_str p) alerts output) rest
  end.

Fixpoint decode_by_path (kv : list (string * pyval))
    : res (list (string * list ValeDiagnostic)) :=
  match kv with
  | [] => Ok []
  | (path, alerts) :: kv' =>
      ds <-? _to_alerts alerts ;;
      rest <-? decode_by_path kv' ;;
      Ok ((path, ds) :: rest)
  end.

Definition stdin_key : string := "<stdin>".

(** The [match value] of [_decode_vale_json].  The sequence pattern
    [[dict() as first, *_]] matches lists and tuples; [case list()] only
    lists. *)
Definition decode_value (value : pyval)
    : res (list (string * list ValeDiagnostic)) :=
  match value with
  | VDict kv => decode_by_path kv
  | VList ((first :: _) as l) | VTuple ((first :: _) as l) =>
      if has_path_and_alerts first then decode_files [] l
      else match value with
           | VList _ => ds <-? _to_alerts value ;; Ok [(stdin_key, ds)]
           | _ => Ok []
           end
  | VList [] => ds <-? _to_alerts value ;; Ok [(stdin_key, ds)]
  | _ => Ok []
  end.

(** ** [_force_styles_path]: the pattern [(?m)^\s*StylesPath\s*=.*$]

    Python's [\s] on a [str] is [str.isspace]: among the code points below
    256 these are 9-13, 28-32, 133 and 160.  In multiline mode [^] holds
    at the start of the text and after each newline, [.] is any character
    but a newline and [$] holds before a newline or at the end.  The
    leading [\s*] may cross newlines.  Both [\s*] are followed by a
    character that is not whitespace ([S] and [=]), and [.*$] stops at the
    first newline, so the match from a given line start is unique; no
    backtracking is needed. *)

Definition is_space (c : ascii) : bool :=
  let n := nat_of_ascii c in
  (Nat.leb 9 n && Nat.leb n 13) || (Nat.leb 28 n && Nat.leb n 32)
  || Nat.eqb n 133 || Nat.eqb n 160.

Definition nl : ascii := ascii_of_nat 10.

Fixpoint skip_ws (s : string) : string :=
  match s with
  | String c s' => if is_space c then skip_ws s' else s
  | EmptyString => EmptyString
  end.

(** The suffix left after a literal prefix, if the text starts with it. *)
Fixpoint strip_prefix (pre s : string) : option string :=
  match pre, s with
  | EmptyString, _ => Some s
  | String c pre', String c' s' =>
      if Ascii.eqb c c' then strip_prefix pre' s' else None
  | String _ _, EmptyString => None
  end.

(** [.*$]: what is left after the rest of the line. *)
Fixpoint rest_of_line (s : string) : string :=
  match s with
  | String c s' => if Ascii.eqb c nl then s else rest_of_line s'
  | EmptyString => EmptyString
  end.

(** The pattern [^\s*KEY\s*=.*$] tried at a line start: the text after
    the match, if it matches.  [Packages] uses the same pattern without
    [.*$], which does not change whether it matches. *)
Definition directive_at (key : string) (s : string) : option string :=
  match strip_prefix key (skip_ws s) with
  | Some s2 =>
      match skip_ws s2 with
      | String c s3 => if Ascii.eqb c "=" then Some (rest_of_line s3) else None
      | EmptyString => None
      end
  | None => None
  end.

(** The first line of a text, and the text after its newline, if any. *)
Fixpoint split_line (s : string) : string * option string :=
  match s with
  | EmptyString => (EmptyString, None)
  | String c s' =>
      if Ascii.eqb c nl then (EmptyString, Some s')
      else let (l, r) := split_line s' in (String c l, r)
  end.

(** The suffixes of a text that start right after a newline. *)
Fixpoint after_newlines (s : string) : list string :=
  match s with
  | EmptyString => []
  | String c s' =>
      if Ascii.eqb c nl then s' :: after_newlines s' else after_newlines s'
  end.

(** [re.search(pattern, text)] is truthy. *)
Definition re_search (key : string) (s : string) : bool :=
  existsb (fun t => match directive_at key t with Some _ => true | None => false end)
    (s :: after_newlines s).

(** [re.sub(pattern, repl, text)] from a line start.  After a match the
    scan resumes at the newline that ended it, which is no line start, so
    the next candidate is the line after it; after a failed line start the
    next candidate is the next line.  Every step consumes a character, so
    [S (length s)] steps suffice. *)
Fixpoint sub_from (key repl : string) (fuel : nat) (s : string) : string :=
  match fuel with
  | O => s
  | S f =>
      match directive_at key s with
      | Some rest =>
          repl +++ match rest with
                   | String c r => String c (sub_from key repl f r)
                   | EmptyString => EmptyString
                   end
      | None =>
          match split_line s with
          | (l, None) => l
          | (l, Some r) => l +++ String nl (sub_from key repl f r)
          end
      end
  end.

Definition re_sub (key repl : string) (s : string) : string :=
  sub_from key repl (S (String.length s)) s.

(** The replacement [f"StylesPath = {styles_dirname}"]; [re.sub] expands
    backslash escapes in it, which leaves a name without backslashes, such
    as the ["styles"] the constructor passes, unchanged. *)
Definition _force_styles_path (ini_text : string) (styles_dirname : string)
    : string :=
  let repl := "StylesPath = " +++ styles_dirname in
  if re_search "StylesPath" ini_text
  then re_sub "StylesPath" repl ini_text
  else repl +++ String nl ini_text.

(** ** [_render_mapping_ini] *)

(** [str.strip()]: whitespace is [str.isspace], as for [\s]. *)
Fixpoint rstrip_rev (r : list ascii) : list ascii :=
  match r with
  | c :: r' => if is_space c then rstrip_rev r' else r
  | [] => []
  end.

Definition py_strip (s : string) : string :=
  string_of_list_ascii (rev (rstrip_rev (rev (list_ascii_of_string (skip_ws s))))).

(** One [key = value] line of [_emit_section]. *)
Definition render_value (value : pyval) : string :=
  match value with
  | VList l | VTuple l => join ", " (map py_str l)
  | _ => py_str value
  end.

Definition _emit_section (lines : list string) (body : list (string * pyval))
    : list string :=
  lines ++ map (fun '(key, value) => key +++ " = " +++ render_value value) body.

Definition starts_with_bracket (s : string) : bool :=
  match s with String "[" _ => true | _ => false end.

(** The [for section, body in mapping.items()] loop, threading [lines]. *)
Fixpoint render_sections (lines : list string) (items : list (string * pyval))
    : res (list string) :=
  match items with
  | [] => Ok lines
  | (section, body) :: items' =>
      if String.eqb section "__root__" || String.eqb section "top"
      then render_sections lines items'
      else
        let header :=
          if starts_with_bracket section then section else "[" +++ section +++ "]" in
        let lines := lines ++ [""] in
        match body with
        | VDict mapping_body =>
            render_sections (_emit_section (lines ++ [header]) mapping_body) items'
        | _ => Err (InvalidIniSectionError section)
        end
  end.

Definition _render_mapping_ini (mapping : list (string * pyval)) : res string :=
  let root :=
    match dict_get "__root__" mapping with
    | Some v => v
    | None => match dict_get "top" mapping with Some v => v | None => VDict [] end
    end in
  let lines := match root with VDict mapping_root => _emit_section [] mapping_root
                               | _ => [] end in
  lines' <-? render_sections lines mapping ;;
  Ok (py_strip (join (String nl "") lines') +++ String nl "").

(** ** Bytes and text at the process boundary *)

(** UTF-8 decoding of a byte sequence, one entry per decoded code point,
    [None] for each maximal ill-formed subpart (the unit CPython replaces
    with U+FFFD under [errors="replace"]). *)
Definition in_range (lo hi b : Z) : bool := (lo <=? b) && (b <=? hi).

Fixpoint utf8_units (bs : list Z) : list (option Z) :=
  match bs with
  | [] => []
  | b0 :: r =>
      if b0 <? 128 then Some b0 :: utf8_units r
      else if in_range 194 223 b0 then
        match r with
        | b1 :: r1 =>
            if in_range 128 191 b1
            then Some (Z.lor (Z.shiftl (Z.land b0 31) 6) (Z.land b1 63)) :: utf8_units r1
            else None :: utf8_units r
        | [] => [None]
        end
      else if in_range 224 239 b0 then
        let lo1 := if b0 =? 224 then 160 else 128 in
        let hi1 := if b0 =? 237 then 159 else 191 in
        match r with
        | b1 :: r1 =>
            if in_range lo1 hi1 b1 then
              match r1 with
              | b2 :: r2 =>
                  if in_range 128 191 b2
                  then Some (Z.lor (Z.shiftl (Z.land b0 15) 12)
                              (Z.lor (Z.shiftl (Z.land b1 63) 6) (Z.land b2 63)))
                       :: utf8_units r2
                  else None :: utf8_units r1
              | [] => [None]
              end
            else None :: utf8_units r
        | [] => [None]
        end
      else if in_range 240 244 b0 then
        let lo1 := if b0 =? 240 then 144 else 128 in
        let hi1 := if b0 =? 244 then 143 else 191 in
        match r with
        | b1 :: r1 =>
            if in_range lo1 hi1 b1 then
              match r1 with
              | b2 :: r2 =>
                  if in_range 128 191 b2 then
                    match r2 with
                    | b3 :: r3 =>
                        if in_range 128 191 b3
                        then Some (Z.lor (Z.shiftl (Z.land b0 7) 18)
                                    (Z.lor (Z.shiftl (Z.land b1 63) 12)
                                      (Z.lor (Z.shiftl (Z.land b2 63) 6) (Z.land b3 63))))
                             :: utf8_units r3
                        else None :: utf8_units r2
                    | [] => [None]
                    end
                  else None :: utf8_units r1
              | [] => [None]
              end
            else None :: utf8_units r
        | [] => [None]
        end
      else None :: utf8_units r
  end.

Definition bytes_to_Z (bs : list Byte.byte) : list Z :=
  map (fun b => Z.of_N (Byte.to_N b)) bs.

Definition replacement_char : Z := 65533.

(** [bs.decode("utf-8", "replace")]: text as a list of code points. *)
Definition decode_replace (bs : list Byte.byte) : list Z :=
  map (fun u => match u with Some c => c | None => replacement_char end)
    (utf8_units (bytes_to_Z bs)).

(** Strict UTF-8 decoding, as [text=True] does in a UTF-8 locale. *)
Definition decode_strict (bs : list Byte.byte) : res (list Z) :=
  mapR (fun u => match u with Some c => Ok c | None => Err UnicodeDecodeError end)
    (utf8_units (bytes_to_Z bs)).

(** [s.encode("utf-8")] of a string of code points below 256. *)
Definition byte_of_Z (z : Z) : Byte.byte := byte_of_ascii (ascii_of_N (Z.to_N z)).

Definition encode_utf8 (s : string) : list Byte.byte :=
  flat_map (fun c =>
    let n := Z.of_N (N_of_ascii c) in
    if n <? 128 then [byte_of_Z n]
    else [byte_of_Z (Z.lor 192 (Z.shiftr n 6)); byte_of_Z (Z.lor 128 (Z.land n 63))])
    (list_ascii_of_string s).

(** The code points of an ASCII text, to compare with decoded output. *)
Definition text_of (s : string) : list Z :=
  map (fun c => Z.of_N (N_of_ascii c)) (list_ascii_of_string s).

(** ** The file system, the environment and the harness monad

    A path is the list of its components from [/]; a [pathlib] join
    resolves [.] and [..] lexically (symbolic links are not modelled).
    The file system maps paths to directories and files; the contents of
    a file are its text (UTF-8 encoding of file contents is not
    modelled). *)

Definition path := list string.

Inductive node : Type :=
| NDir
| NFile (contents : string).

Definition fs := list (path * node).

Definition path_eqb (p q : path) : bool :=
  if list_eq_dec string_dec p q then true else false.

Fixpoint is_prefix (p q : path) : bool :=
  match p, q with
  | [], _ => true
  | x :: p', y :: q' => String.eqb x y && is_prefix p' q'
  | _ :: _, [] => false
  end.

Fixpoint fs_lookup (p : path) (f : fs) : option node :=
  match f with
  | [] => None
  | (q, n) :: f' => if path_eqb p q then Some n else fs_lookup p f'
  end.

Definition fs_set (p : path) (n : node) (f : fs) : fs :=
  (p, n) :: filter (fun e => negb (path_eqb (fst e) p)) f.

(** Everything at or below [p] removed. *)
Definition fs_remove_tree (p : path) (f : fs) : fs :=
  filter (fun e => negb (is_prefix p (fst e))) f.

(** Some entry of the file system lies at or below [p]. *)
Definition tree_present (p : path) (f : fs) : bool :=
  existsb (fun e => is_prefix p (fst e)) f.

Fixpoint split_on (c : ascii) (s : string) : list string :=
  match s with
  | EmptyString => [EmptyString]
  | String x s' =>
      if Ascii.eqb x c then EmptyString :: split_on c s'
      else match split_on c s' with
           | h :: t => String x h :: t
           | [] => [String x EmptyString]
           end
  end.

Definition path_step (acc : path) (comp : string) : path :=
  if String.eqb comp "" || String.eqb comp "." then acc
  else if String.eqb comp ".." then removelast acc
  else acc ++ [comp].

(** [base / rel]: an absolute [rel] replaces [base].  Empty and [.]
    components are dropped, as [pathlib] does; a [..] component is
    resolved textually here, whereas the operating system resolves it on
    disk (so [missing/../f] names [f] here but does not exist there). *)
Definition pjoin (base : path) (rel : string) : path :=
  let start := match rel with String "/" _ => [] | _ => base end in
  fold_left path_step (split_on "/" rel) start.

Definition path_str (p : path) : string := "/" +++ join "/" p.

(** What [subprocess.run] reports. *)
Record completed : Type := {
  returncode : Z;
  stdout : list Byte.byte;
  stderr : list Byte.byte
}.

(** The collaborators outside the repository: [shutil.which], the
    external process (by command, working directory and standard input;
    [None] when it cannot be spawned), the working directory,
    [tempfile.gettempdir()] and [msgspec.json.decode] ([None] for a
    [DecodeError]).  The external process's own writes to disk are not
    modelled. *)
Record Env : Type := {
  env_which : string -> option string;
  env_run : list string -> option path -> option (list Byte.byte) -> option completed;
  env_cwd : path;
  env_tmpdir : path;
  env_json : list Z -> option pyval
}.

(** A ghost log of the disk operations and binary lookups, in reverse
    order; the program never reads it. *)
Inductive event : Type :=
| EMkTemp (p : path)
| EWhich (name : string)
| EMkdir (p : path)
| EWrite (p : path)
| ERmtree (p : path).

(** The mutable world: the file system, the temporary directories whose
    [weakref.finalize] is still attached, the counter behind
    [tempfile]'s candidate names, and the log. *)
Record World : Type := {
  w_fs : fs;
  w_live : list path;
  w_seq : nat;
  w_log : list event
}.

Definition M (A : Type) : Type := Env -> World -> World * res A.

Definition ret {A} (a : A) : M A := fun _ w => (w, Ok a).
Definition raise {A} (e : exn) : M A := fun _ w => (w, Err e).
Definition bind {A B} (m : M A) (k : A -> M B) : M B :=
  fun E w =>
    match m E w with
    | (w1, Ok a) => k a E w1
    | (w1, Err e) => (w1, Err e)
    end.

Notation "x <- m ;; k" := (bind m (fun x => k))
  (at level 61, m at next level, right associativity).

Definition lift {A} (r : res A) : M A := fun _ w => (w, r).
Definition ask : M Env := fun E w => (w, Ok E).
Definition get_fs : M fs := fun _ w => (w, Ok (w_fs w)).

Definition put_fs (f : fs) (ev : event) : M unit :=
  fun _ w => ({| w_fs := f; w_live := w_live w; w_seq := w_seq w;
                 w_log := ev :: w_log w |}, Ok tt).

Definition log (ev : event) : M unit :=
  fun _ w => ({| w_fs := w_fs w; w_live := w_live w; w_seq := w_seq w;
                 w_log := ev :: w_log w |}, Ok tt).

Definition next_seq : M nat :=
  fun _ w => ({| w_fs := w_fs w; w_live := w_live w; w_seq := S (w_seq w);
                 w_log := w_log w |}, Ok (w_seq w)).

Definition set_live (l : list path) : M unit :=
  fun _ w => ({| w_fs := w_fs w; w_live := l; w_seq := w_seq w;
                 w_log := w_log w |}, Ok tt).

Definition get_live : M (list path) := fun _ w => (w, Ok (w_live w)).

(** ** File operations *)

Definition path_exists (p : path) : M bool :=
  f <- get_fs ;;
  ret (match fs_lookup p f with Some _ => true | None => false end).

(** [Path.mkdir(parents=True, exist_ok=True)]: each missing ancestor is
    created; an existing directory is accepted, a file in the way fails. *)
Fixpoint mkdirs_from (done : path) (todo : list string) : M unit :=
  match todo with
  | [] => ret tt
  | c :: todo' =>
      let p := done ++ [c] in
      f <- get_fs ;;
      match fs_lookup p f with
      | Some NDir => mkdirs_from p todo'
      | Some (NFile _) =>
          match todo' with [] => raise FileExistsError | _ => raise OSError end
      | None => _ <- put_fs (fs_set p NDir f) (EMkdir p) ;; mkdirs_from p todo'
      end
  end.

Definition mkdir_p (p : path) : M unit := mkdirs_from [] p.

(** [Path.write_text] / [Path.write_bytes]: the parent must be a
    directory, the target must not be one. *)
Definition write_file (p : path) (contents : string) : M unit :=
  f <- get_fs ;;
  match p with
  | [] => raise (IsADirectoryError p)
  | _ =>
      let parent := removelast p in
      match (match parent with [] => Some NDir | _ => fs_lookup parent f end) with
      | None => raise (FileNotFoundError p)
      | Some (NFile _) => raise OSError
      | Some NDir =>
          match fs_lookup p f with
          | Some NDir => raise (IsADirectoryError p)
          | _ => put_fs (fs_set p (NFile contents) f) (EWrite p)
          end
      end
  end.

(** The universal-newline translation of text-mode reading: ["\r\n"] and
    a lone ["\r"] both become ["\n"]. *)
Fixpoint universal_newlines (s : string) : string :=
  match s with
  | EmptyString => EmptyString
  | String c s' =>
      if Ascii.eqb c (ascii_of_nat 13) then
        match s' with
        | String c2 s'' =>
            if Ascii.eqb c2 nl then String nl (universal_newlines s'')
            else String nl (universal_newlines s')
        | EmptyString => String nl EmptyString
        end
      else String c (universal_newlines s')
  end.

(** [Path.read_text]. *)
Definition read_text (p : path) : M string :=
  f <- get_fs ;;
  match fs_lookup p f with
  | Some (NFile c) => ret (universal_newlines c)
  | Some NDir => raise (IsADirectoryError p)
  | None => raise (FileNotFoundError p)
  end.

(** ** [tempfile.TemporaryDirectory] *)

Definition TMP_MAX : nat := 238328.

(** [mkdtemp]: the first candidate name that does not exist is created;
    a missing temporary root fails with [FileNotFoundError].  The
    candidates here are the prefix and a decimal counter, where
    [tempfile] draws eight random characters from [[a-z0-9_]]; the
    properties below do not depend on the form of the name. *)
Fixpoint mkdtemp_try (fuel : nat) (prefix : string) : M path :=
  match fuel with
  | O => raise FileExistsError
  | S fuel' =>
      E <- ask ;;
      n <- next_seq ;;
      let file := env_tmpdir E ++ [prefix +++ N_to_dec (N.of_nat n)] in
      f <- get_fs ;;
      match fs_lookup file f with
      | Some _ => mkdtemp_try fuel' prefix
      | None =>
          match (match env_tmpdir E with [] => Some NDir
                                       | d => fs_lookup d f end) with
          | Some NDir => _ <- put_fs (fs_set file NDir f) (EMkTemp file) ;; ret file
          | Some (NFile _) => raise OSError
          | None => raise (FileNotFoundError file)
          end
      end
  end.

(** [TemporaryDirectory(prefix=...)]: [mkdtemp] and an attached finalizer. *)
Definition TemporaryDirectory (prefix : string) : M path :=
  name <- mkdtemp_try TMP_MAX prefix ;;
  live <- get_live ;;
  _ <- set_live (name :: live) ;;
  ret name.

(** [self._finalizer.detach()]: truthy exactly while still attached. *)
Definition detach (name : path) : M bool :=
  live <- get_live ;;
  _ <- set_live (filter (fun q => negb (path_eqb q name)) live) ;;
  ret (existsb (path_eqb name) live).

(** [TemporaryDirectory._rmtree]: [shutil.rmtree] whose error handler
    ignores [FileNotFoundError]; a file in place of the directory fails. *)
Definition tmp_rmtree (name : path) : M unit :=
  f <- get_fs ;;
  match fs_lookup name f with
  | None => ret tt
  | Some (NFile _) => raise OSError
  | Some NDir => put_fs (fs_remove_tree name f) (ERmtree name)
  end.

(** [TemporaryDirectory.cleanup]:
    [if self._finalizer.detach() or os.path.exists(self.name): self._rmtree(...)]. *)
Definition tmp_cleanup (name : path) : M unit :=
  alive <- detach name ;;
  if alive then tmp_rmtree name
  else ex <- path_exists name ;;
       if ex then tmp_rmtree name else ret tt.

(** ** The harness *)

Definition _VALE_RUNTIME_FAILURE_EXIT : Z := 2.

(** The attributes of a [Valedate] instance; [tmp] is the name of its
    [TemporaryDirectory] object [self._tmp]. *)
Record Valedate : Type := {
  root : path;
  vale_bin : string;
  stdin_flag_supported : bool;
  stdin_ext_ : string;
  default_min_level : option string;
  ini_path : path;
  tmp : path
}.

Definition _which_vale (vale_bin : string) : M string :=
  E <- ask ;;
  _ <- log (EWhich vale_bin) ;;
  match env_which E vale_bin with
  | None => raise (ValeBinaryNotFoundError vale_bin)
  | Some p => ret p
  end.

Fixpoint starts_with_Z (needle hay : list Z) : bool :=
  match needle, hay with
  | [], _ => true
  | x :: n', y :: h' => (x =? y) && starts_with_Z n' h'
  | _ :: _, [] => false
  end.

Fixpoint contains_Z (needle hay : list Z) : bool :=
  starts_with_Z needle hay ||
  match hay with [] => false | _ :: h' => contains_Z needle h' end.

(** [_vale_supports_stdin_flag]: [vale --help] with [text=True]. *)
Definition _vale_supports_stdin_flag (vale_bin : string) : M bool :=
  E <- ask ;;
  match env_run E [vale_bin; "--help"] None None with
  | None => raise OSError
  | Some probe =>
      out <- lift (decode_strict (stdout probe)) ;;
      err <- lift (decode_strict (stderr probe)) ;;
      ret (contains_Z (text_of "--stdin") (out ++ err))
  end.

(** [Valedate._run]. *)
Definition _run (self : Valedate) (args : list string) (stdin : option string)
    : M (list Z) :=
  E <- ask ;;
  let cmd := vale_bin self :: ("--config=" +++ path_str (ini_path self)) :: args in
  match env_run E cmd (Some (root self)) (option_map encode_utf8 stdin) with
  | None => raise OSError
  | Some proc =>
      if _VALE_RUNTIME_FAILURE_EXIT <=? returncode proc
      then raise (ValeExecutionError (returncode proc) (decode_replace (stderr proc)))
      else ret (decode_replace (stdout proc))
  end.

(** ** Ini input *)

Inductive IniLike : Type :=
| IniStr (text : string)
| IniPathLike (p : path)
| IniMapping (mapping : list (string * pyval))
| IniOther.

Definition _read_ini_from_text_or_path (text : string) : M string :=
  E <- ask ;;
  let candidate := pjoin (env_cwd E) text in
  ex <- path_exists candidate ;;
  if ex then read_text candidate else ret text.

Definition _read_ini_from_pathlike (p : path) : M string :=
  ex <- path_exists p ;;
  if ex then read_text p else raise (FileNotFoundError p).

Definition _as_ini_text (ini : IniLike) : M string :=
  match ini with
  | IniStr text => _read_ini_from_text_or_path text
  | IniPathLike p => _read_ini_from_pathlike p
  | IniMapping mapping => lift (_render_mapping_ini mapping)
  | IniOther => raise UnsupportedIniInputError
  end.

(** ** Styles input *)

Inductive StyleContents : Type :=
| ContentsText (s : string)
| ContentsBytes (b : string)
| ContentsOther.

Inductive StylesLike : Type :=
| StylesMapping (mapping : list (string * StyleContents))
| StylesDirPath (p : path)
| StylesNone
| StylesOther.

Fixpoint _materialise_tree (root : path) (mapping : list (string * StyleContents))
    : M unit :=
  match mapping with
  | [] => ret tt
  | (rel_path, contents) :: mapping' =>
      let destination := pjoin root rel_path in
      _ <- mkdir_p (removelast destination) ;;
      _ <- match contents with
           | ContentsBytes b => write_file destination b
           | ContentsText s => write_file destination s
           | ContentsOther => raise (TypeError "style file contents must be str or bytes")
           end ;;
      _materialise_tree root mapping'
  end.

(** The copies of [shutil.copytree(..., dirs_exist_ok=True)] and
    [shutil.copy2] over a listing of the source tree taken at the start:
    every directory below the source is created at the same relative
    place, every file written there (into it when a directory is in the
    way, as [copy2] does).  The first error is raised at once. *)
Fixpoint copy_entries (dst styles : path) (entries : list (path * node)) : M unit :=
  match entries with
  | [] => ret tt
  | (q, n) :: entries' =>
      let target := dst ++ skipn (length styles) q in
      _ <- match n with
           | NDir => mkdir_p target
           | NFile c =>
               _ <- mkdir_p (removelast target) ;;
               f <- get_fs ;;
               match fs_lookup target f with
               | Some NDir => write_file (target ++ [last q ""]) c
               | _ => write_file target c
               end
           end ;;
      copy_entries dst styles entries'
  end.

Definition _copy_styles_into (dst styles : path) : M unit :=
  f <- get_fs ;;
  match fs_lookup styles f with
  | None => raise (StylesTreeMissingError styles)
  | Some (NFile _) => raise (StylesTreeTypeError styles)
  | Some NDir =>
      copy_entries dst styles
        (filter (fun e => is_prefix styles (fst e) && negb (path_eqb (fst e) styles)) f)
  end.

Definition _populate_styles (styles_dir : path) (styles : StylesLike) : M unit :=
  match styles with
  | StylesMapping mapping => _materialise_tree styles_dir mapping
  | StylesDirPath p => _copy_styles_into styles_dir p
  | StylesNone => ret tt
  | StylesOther => raise (TypeError "styles must be Path, Mapping, or None")
  end.

(** ** [Valedate.__init__] *)

(** The body of the [with contextlib.ExitStack() as stack:] block after
    [tmp_obj] has been created and entered. *)
Definition init_body (tmp_path : path) (ini : IniLike) (styles : StylesLike)
    (vale_bin : string) (stdin_ext : string) (auto_sync : bool)
    (min_alert_level : option string) : M Valedate :=
  vb <- _which_vale vale_bin ;;
  supported <- _vale_supports_stdin_flag vb ;;
  let styles_dir := tmp_path ++ ["styles"] in
  _ <- mkdir_p styles_dir ;;
  _ <- _populate_styles styles_dir styles ;;
  t <- _as_ini_text ini ;;
  let ini_text := _force_styles_path t "styles" in
  let ini_path := tmp_path ++ [".vale.ini"] in
  _ <- write_file ini_path ini_text ;;
  let self := {| root := tmp_path; vale_bin := vb;
                 stdin_flag_supported := supported; stdin_ext_ := stdin_ext;
                 default_min_level := min_alert_level; ini_path := ini_path;
                 tmp := tmp_path |} in
  _ <- (if auto_sync && re_search "Packages" ini_text
        then _ <- _run self ["sync"] None ;; ret tt
        else ret tt) ;;
  ret self.

(** The [ExitStack] holding [tmp_obj]: when the body raises, the stack
    calls [tmp_obj.__exit__], that is [cleanup()], and the body's error
    propagates (or the cleanup's, if it raises in turn); when the body
    returns, [stack.pop_all()] has moved the callback out and nothing is
    cleaned. *)
Definition exit_stack {A} (tmp_obj : path) (body : M A) : M A :=
  fun E w =>
    match body E w with
    | (w1, Ok a) => (w1, Ok a)
    | (w1, Err e) =>
        match tmp_cleanup tmp_obj E w1 with
        | (w2, Ok _) => (w2, Err e)
        | (w2, Err e') => (w2, Err e')
        end
    end.

Definition Valedate_init (ini : IniLike) (styles : StylesLike) (vale_bin : string)
    (stdin_ext : string) (auto_sync : bool) (min_alert_level : option string)
    : M Valedate :=
  tmp_obj <- TemporaryDirectory "valedate-" ;;
  exit_stack tmp_obj
    (init_body tmp_obj ini styles vale_bin stdin_ext auto_sync min_alert_level).

(** [Valedate.cleanup] and [Valedate.__exit__]. *)
Definition cleanup (self : Valedate) : M unit := tmp_cleanup (tmp self).

Definition __exit__ (self : Valedate) : M unit := cleanup self.

(** ** [lint] and [lint_path] *)

Definition _decode_vale_json (output : list Z)
    : M (list (string * list ValeDiagnostic)) :=
  E <- ask ;;
  match env_json E output with
  | None => raise DecodeError
  | Some value => lift (decode_value value)
  end.

(** [a or b] on optional strings: [None] and [""] are falsy. *)
Definition py_or (a b : option string) : option string :=
  match a with
  | Some s => if String.eqb s "" then b else a
  | None => b
  end.

Definition level_args (level : option string) : list string :=
  match level with
  | Some l => ["--minAlertLevel=" +++ l]
  | None => []
  end.

Definition lint (self : Valedate) (text : string) (ext : option string)
    (min_alert_level : option string) : M (list ValeDiagnostic) :=
  let e := match py_or ext (Some (stdin_ext_ self)) with
           | Some s => s | None => "" end in
  let args := ["--no-global"; "--no-exit"; "--output=JSON"; "--ext=" +++ e]
              ++ (if stdin_flag_supported self then ["--stdin"] else [])
              ++ level_args (py_or min_alert_level (default_min_level self)) in
  output <- _run self args (Some text) ;;
  by_file <- _decode_vale_json output ;;
  ret (match by_file with [] => [] | (_, ds) :: _ => ds end).

Definition lint_path (self : Valedate) (p : path) (min_alert_level : option string)
    : M (list (string * list ValeDiagnostic)) :=
  let args := ["--no-global"; "--no-exit"; "--output=JSON"]
              ++ level_args (py_or min_alert_level (default_min_level self)) in
  output <- _run self (args ++ [path_str p]) None ;;
  _decode_vale_json output.

(** ** Predicates used by the statements *)

(** [l] is a whole line of [t]: preceded by the start or a newline and
    followed by a newline or the end. *)
Definition has_line (l t : string) : Prop :=
  exists pre post, t = pre +++ l +++ post
    /\ (pre = "" \/ exists pre', pre = pre' +++ String nl "")
    /\ (post = "" \/ exists post', post = String nl post').

(** ** A concrete world *)

(** A world with the temporary root [/tmp] and a working directory
    [/home], and an environment whose [vale] answers every call with exit
    code 0 and empty output. *)
Definition sample_env (which : string -> option string) : Env :=
  {| env_which := which;
     env_run := fun _ _ _ => Some {| returncode := 0; stdout := []; stderr := [] |};
     env_cwd := ["home"];
     env_tmpdir := ["tmp"];
     env_json := fun _ => Some (VList []) |}.

Definition sample_world : World :=
  {| w_fs := [(["tmp"], NDir); (["home"], NDir)];
     w_live := []; w_seq := 0; w_log := [] |}.

Definition sample_init (which : string -> option string) : World * res Valedate :=
  Valedate_init (IniMapping [("__root__", VDict [("MinAlertLevel", VStr "suggestion")])])
    StylesNone "vale" "md" false None (sample_env which) sample_world.

(** The instance built in that world when [vale] is found. *)
Definition sample_handle : Valedate :=
  {| root := ["tmp"; "valedate-0"]; vale_bin := "/usr/bin/vale";
     stdin_flag_supported := false; stdin_ext_ := "md";
     default_min_level := None; ini_path := ["tmp"; "valedate-0"; ".vale.ini"];
     tmp := ["tmp"; "valedate-0"] |}.

(** ** Auxiliary notions of the properties *)

(** Every conversion either succeeds or raises [ValidationError]. *)
Definition only_validation {A} (r : res A) : Prop :=
  match r with Ok _ => True | Err e => e = ValidationError end.

(** The mapping without its entries under key [k]. *)
Definition drop_key (k : string) (m : list (string * pyval)) : list (string * pyval) :=
  filter (fun kv => negb (String.eqb (fst kv) k)) m.

(** An alert with its required fields and a string where [Line] wants
    an integer. *)
Definition sample_alert_bad_line : pyval :=
  VDict [("Check", VStr "Test.NoFoo"); ("Message", VStr "Avoid 'foo'.");
         ("Severity", VStr "warning"); ("Line", VStr "1")].

(** Running [m] leaves [d] a directory whenever it was one, whether [m]
    returns or raises. *)
Definition keeps_dir (d : path) {A} (m : M A) : Prop :=
  forall E w, fs_lookup d (w_fs w) = Some NDir ->
              fs_lookup d (w_fs (fst (m E w))) = Some NDir.

(** Running [m] does not touch the file system. *)
Definition fs_unchanged {A} (m : M A) : Prop :=
  forall E w, w_fs (fst (m E w)) = w_fs w.

(** The first character of a text that is not [\s], if any. *)
Definition first_nonspace (s : string) : option ascii :=
  match skip_ws s with String c _ => Some c | EmptyString => None end.

(** Running [m] keeps the entry [n] at [q], whether [m] returns or
    raises. *)
Definition keeps_node (q : path) (n : node) {A} (m : M A) : Prop :=
  forall E w, fs_lookup q (w_fs w) = Some n ->
              fs_lookup q (w_fs (fst (m E w))) = Some n.

(** * The assertion helpers (src/valedate/assertions.py) *)

(** What an assertion helper does: return a value or raise
    [AssertionError] with a message. *)
Inductive outcome (A : Type) : Type :=
| Returned (a : A)
| AssertionError (msg : string).
Arguments Returned {A} a.
Arguments AssertionError {A} msg.

(** [x in s] on strings. *)
Fixpoint str_contains (needle hay : string) : bool :=
  String.prefix needle hay
  || match hay with EmptyString => false | String _ hay' => str_contains needle hay' end.

(** [{diag.line or '?'}]: [None] and [0] are falsy. *)
Definition line_or_q (l : option Z) : string :=
  match l with
  | Some z => if z =? 0 then "?" else Z_to_dec z
  | None => "?"
  end.

Definition render_diag (diag : ValeDiagnostic) : string :=
  "- " +++ check diag +++ " @ line " +++ line_or_q (line diag) +++ ": " +++ message diag.

Definition _render_diagnostics (diags : list ValeDiagnostic) : string :=
  match diags with
  | [] => "(no diagnostics)"
  | _ => join (String nl "") (map render_diag diags)
  end.

Definition assert_no_diagnostics (diags : list ValeDiagnostic) (message : option string)
    : outcome unit :=
  match diags with
  | [] => Returned tt
  | _ =>
      let details := _render_diagnostics diags in
      match py_or message (Some ("Expected no diagnostics, got:" +++ String nl details)) with
      | Some m => AssertionError m
      | None => AssertionError ""
      end
  end.

(** The [continue] tests of the loop of [assert_has_diagnostic], in the
    order of the source. *)
Definition skip_diag (check_ message_contains severity_ : option string)
    (line_ : option Z) (match__ : option string) (diag : ValeDiagnostic) : bool :=
  match check_ with Some c => negb (String.eqb (check diag) c) | None => false end
  || match severity_ with Some s => negb (String.eqb (severity diag) s) | None => false end
  || match line_ with
     | Some l => match line diag with Some l' => negb (l' =? l) | None => true end
     | None => false
     end
  || match match__ with
     | Some m => match match_ diag with Some m' => negb (String.eqb m' m) | None => true end
     | None => false
     end
  || match message_contains with
     | Some s => negb (str_contains s (message diag))
     | None => false
     end.

Fixpoint first_unskipped (skip : ValeDiagnostic -> bool) (diags : list ValeDiagnostic)
    : option ValeDiagnostic :=
  match diags with
  | [] => None
  | diag :: diags' => if skip diag then first_unskipped skip diags' else Some diag
  end.

(** The filters that are not [None], in the order of the dict literal. *)
Definition expected_filters (check_ message_contains severity_ : option string)
    (line_ : option Z) (match__ : option string) : list (string * pyval) :=
  let opt {A} (k : string) (conv : A -> pyval) (o : option A) :=
    match o with Some x => [(k, conv x)] | None => [] end in
  opt "check" VStr check_ ++ opt "severity" VStr severity_ ++ opt "line" VInt line_
  ++ opt "match" VStr match__ ++ opt "message_contains" VStr message_contains.

Definition assert_has_diagnostic (diags : list ValeDiagnostic)
    (check_ message_contains severity_ : option string) (line_ : option Z)
    (match__ : option string) : outcome ValeDiagnostic :=
  match first_unskipped (skip_diag check_ message_contains severity_ line_ match__) diags with
  | Some diag => Returned diag
  | None =>
      let expected := expected_filters check_ message_contains severity_ line_ match__ in
      let details := _render_diagnostics diags in
      AssertionError ("Expected a diagnostic matching " +++ py_repr (VDict expected)
                      +++ ", but got none." +++ String nl details)
  end.

(** Sets of strings as duplicate-free lists; [sorted] orders by code
    point. *)
Fixpoint dedup (l : list string) : list string :=
  match l with
  | [] => []
  | x :: l' => if existsb (String.eqb x) l' then dedup l' else x :: dedup l'
  end.

Definition set_eqb (a b : list string) : bool :=
  forallb (fun x => existsb (String.eqb x) b) a
  && forallb (fun x => existsb (String.eqb x) a) b.

Fixpoint str_ltb (a b : string) : bool :=
  match a, b with
  | EmptyString, EmptyString => false
  | EmptyString, String _ _ => true
  | String _ _, EmptyString => false
  | String x a', String y b' =>
      if (nat_of_ascii x <? nat_of_ascii y)%nat then true
      else if Ascii.eqb x y then str_ltb a' b' else false
  end.

Fixpoint insert_sorted (x : string) (l : list string) : list string :=
  match l with
  | [] => [x]
  | y :: l' => if str_ltb y x then y :: insert_sorted x l' else x :: l
  end.

Definition sorted (l : list string) : list string := fold_right insert_sorted [] l.

Definition assert_only_checks (diags : list ValeDiagnostic) (expected_checks : list string)
    : outcome unit :=
  let expected := dedup expected_checks in
  let actual := dedup (map check diags) in
  if negb (set_eqb actual expected) then
    AssertionError ("Expected checks " +++ py_repr (VList (map VStr (sorted expected)))
                    +++ ", got " +++ py_repr (VList (map VStr (sorted actual))) +++ "."
                    +++ String nl ("Diagnostics were:" +++ String nl (_render_diagnostics diags)))
  else Returned tt.

(** [diag] passes every filter of [assert_has_diagnostic] that is not
    [None]. *)
Definition matches_filters (check_ message_contains severity_ : option string)
    (line_ : option Z) (match__ : option string) (diag : ValeDiagnostic) : Prop :=
  (check_ = None \/ check_ = Some (check diag))
  /\ (severity_ = None \/ severity_ = Some (severity diag))
  /\ (line_ = None \/ exists l, line_ = Some l /\ line diag = Some l)
  /\ (match__ = None \/ exists m, match__ = Some m /\ match_ diag = Some m)
  /\ (message_contains = None
      \/ exists s, message_contains = Some s /\ str_contains s (message diag) = true).






(** * Properties *)

Example py_str_check :
  py_str (VList [VInt (-12); VStr "a'b"; VNone; VTuple [VBool true]])
  = "[-12, " +++ dq +++ "a'b" +++ dq +++ ", None, (True,)]".
Proof. reflexivity. Qed.

(** ** Decoding of alert objects *)

Lemma only_validation_bind {A B} (r : res A) (k : A -> res B) :
  only_validation r -> (forall a, only_validation (k a)) ->
  only_validation (res_bind r k).
Proof. destruct r; simpl; auto. Qed.

Lemma only_validation_mapR {A B} (f : A -> res B) l :
  (forall x, only_validation (f x)) -> only_validation (mapR f l).
Proof.
  intros Hf; induction l as [|x l IH]; simpl; [exact I|].
  apply only_validation_bind; auto; intros b.
  apply only_validation_bind; auto; intros bs; exact I.
Qed.

Lemma only_validation_conv_optional {A} (c : pyval -> res A) v :
  (forall v, only_validation (c v)) -> only_validation (conv_optional c v).
Proof.
  intros Hc; destruct v; simpl; try exact I;
    apply only_validation_bind; auto; intros; exact I.
Qed.

Lemma only_validation_field_req {A} name (c : pyval -> res A) d :
  (forall v, only_validation (c v)) -> only_validation (field_req name c d).
Proof. intros Hc; unfold field_req; destruct (dict_get name d); simpl; auto. Qed.

Lemma only_validation_field_opt {A} name (def : A) c d :
  (forall v, only_validation (c v)) -> only_validation (field_opt name def c d).
Proof. intros Hc; unfold field_opt; destruct (dict_get name d); simpl; auto. Qed.

Lemma only_validation_conv_str v : only_validation (conv_str v).
Proof. destruct v; simpl; auto. Qed.

Lemma only_validation_conv_int v : only_validation (conv_int v).
Proof. destruct v; simpl; auto. Qed.

Lemma only_validation_conv_span v : only_validation (conv_span v).
Proof.
  destruct v as [| | | |l|l|]; simpl; auto;
    destruct l as [|a [|b [|c l]]]; simpl; auto;
    apply only_validation_bind; try apply only_validation_conv_int; intros;
    apply only_validation_bind; try apply only_validation_conv_int; intros;
    exact I.
Qed.

Lemma only_validation_conv_str_list v : only_validation (conv_str_list v).
Proof.
  destruct v; simpl; auto; apply only_validation_mapR, only_validation_conv_str.
Qed.

Lemma only_validation_conv_action v : only_validation (conv_action v).
Proof.
  destruct v; simpl; auto.
  apply only_validation_bind;
    [apply only_validation_field_opt; intros;
     apply only_validation_conv_optional, only_validation_conv_str|intros].
  apply only_validation_bind;
    [apply only_validation_field_opt; intros;
     apply only_validation_conv_optional, only_validation_conv_str_list|intros].
  exact I.
Qed.

Ltac ov_field :=
  apply only_validation_bind;
  [ first [ apply only_validation_field_req | apply only_validation_field_opt ];
    intros;
    first [ apply only_validation_conv_str | apply only_validation_conv_span
          | apply only_validation_conv_optional;
            first [ apply only_validation_conv_str | apply only_validation_conv_int
                  | apply only_validation_conv_action ] ]
  | intros ].

Lemma only_validation_conv_diagnostic v : only_validation (conv_diagnostic v).
Proof.
  destruct v; simpl; auto.
  do 9 ov_field. exact I.
Qed.

Lemma mapR_fails_at {A B} (f : A -> res B) e x l1 l2 :
  (forall y, only_validation (f y)) -> e = ValidationError ->
  f x = Err e -> mapR f (l1 ++ x :: l2) = Err e.
Proof.
  intros Hf He Hx; induction l1 as [|y l1 IH]; simpl.
  - rewrite Hx; reflexivity.
  - specialize (Hf y); destruct (f y) as [b|e']; simpl in *.
    + rewrite IH; reflexivity.
    + subst; reflexivity.
Qed.

Lemma dict_get_in {A} k (m : list (string * A)) :
  In k (map fst m) -> exists v, dict_get k m = Some v.
Proof.
  induction m as [|[k' v'] m IH]; simpl; [tauto|].
  intros [<-|H].
  - rewrite String.eqb_refl; eauto.
  - destruct (String.eqb k k'); eauto.
Qed.

(** ** Shape dispatch of [_decode_vale_json] *)

Lemma decode_files_fails_on_bad_element out l x :
  In x l -> has_path_and_alerts x = false -> exists e, decode_files out l = Err e.
Proof.
  revert out; induction l as [|y l IH]; intros out Hin Hx; [destruct Hin|].
  destruct Hin as [Heq|Hin].
  - subst y; simpl; destruct x; simpl in Hx |- *; try (eexists; reflexivity).
    destruct (dict_get "Path" kv), (dict_get "Alerts" kv); simpl in Hx |- *;
      try discriminate; eexists; reflexivity.
  - simpl; destruct (getitem y "Path"); simpl; [|eexists; reflexivity].
    destruct (getitem y "Alerts"); simpl; [|eexists; reflexivity].
    destruct (_to_alerts a0); simpl; [|eexists; reflexivity].
    apply IH; auto.
Qed.

(** ** [_render_mapping_ini] *)

Lemma dict_get_drop_other k k' m :
  k <> k' -> dict_get k (drop_key k' m) = dict_get k m.
Proof.
  intros Hne; induction m as [|[k0 v0] m IH]; simpl; auto.
  destruct (String.eqb k0 k') eqn:E0; simpl.
  - apply String.eqb_eq in E0; subst.
    destruct (String.eqb k k') eqn:E1; auto.
    apply String.eqb_eq in E1; contradiction.
  - rewrite IH; reflexivity.
Qed.

Lemma render_sections_drop_top lines m :
  render_sections lines (drop_key "top" m) = render_sections lines m.
Proof.
  revert lines; induction m as [|[sec body] m IH]; intros lines; simpl; auto.
  destruct (String.eqb sec "top") eqn:Et; simpl.
  - rewrite orb_true_r; apply IH.
  - rewrite Et, orb_false_r.
    destruct (String.eqb sec "__root__"); [apply IH|].
    destruct body; auto.
Qed.

(** ** The [StylesPath] rewrite *)

Lemma sapp_assoc (a b c : string) : (a +++ b) +++ c = a +++ (b +++ c).
Proof. induction a as [|x a IH]; simpl; [reflexivity|rewrite IH; reflexivity]. Qed.

Lemma sapp_nil_r (a : string) : a +++ "" = a.
Proof. induction a as [|x a IH]; simpl; [reflexivity|rewrite IH; reflexivity]. Qed.

Lemma slength_app (a b : string) :
  String.length (a +++ b) = (String.length a + String.length b)%nat.
Proof. induction a as [|x a IH]; simpl; [reflexivity|rewrite IH; reflexivity]. Qed.

Lemma rest_of_line_shape s :
  rest_of_line s = "" \/ exists r, rest_of_line s = String nl r.
Proof.
  induction s as [|c s IH]; simpl; [left; reflexivity|].
  destruct (Ascii.eqb c nl) eqn:Ec; [|exact IH].
  apply Ascii.eqb_eq in Ec; subst; right; eexists; reflexivity.
Qed.

Lemma directive_rest_shape key s rest :
  directive_at key s = Some rest -> rest = "" \/ exists r, rest = String nl r.
Proof.
  unfold directive_at; intros H.
  destruct (strip_prefix key (skip_ws s)); [|discriminate].
  destruct (skip_ws s0) as [|c s3]; [discriminate|].
  destruct (Ascii.eqb c "="); [|discriminate].
  injection H as <-; apply rest_of_line_shape.
Qed.

Lemma split_line_some s l r :
  split_line s = (l, Some r) -> s = l +++ String nl r.
Proof.
  revert l; induction s as [|c s IH]; intros l H; simpl in H; [discriminate|].
  destruct (Ascii.eqb c nl) eqn:Ec.
  - apply Ascii.eqb_eq in Ec; subst; injection H as <- <-; reflexivity.
  - destruct (split_line s) as [l0 r0] eqn:Es; injection H as <- ->.
    simpl; f_equal; apply IH; reflexivity.
Qed.

Lemma after_newlines_split s :
  after_newlines s
  = match split_line s with
    | (_, None) => []
    | (_, Some r) => r :: after_newlines r
    end.
Proof.
  induction s as [|c s IH]; simpl; [reflexivity|].
  destruct (Ascii.eqb c nl); [reflexivity|].
  rewrite IH; destruct (split_line s); reflexivity.
Qed.

Lemma sub_from_has_line key repl f s :
  (String.length s < f)%nat -> re_search key s = true ->
  has_line repl (sub_from key repl f s).
Proof.
  revert s; induction f as [|f IH]; intros s Hlen Hs; [lia|].
  simpl; destruct (directive_at key s) as [rest|] eqn:D.
  - destruct (directive_rest_shape _ _ _ D) as [->|[r ->]].
    + exists "", ""; split; [|split; auto].
      simpl; rewrite sapp_nil_r; reflexivity.
    + exists "", (String nl (sub_from key repl f r)); repeat split; eauto.
  - unfold re_search in Hs; simpl in Hs; rewrite D in Hs; simpl in Hs.
    rewrite after_newlines_split in Hs.
    destruct (split_line s) as [l [r|]] eqn:Sp; [|discriminate].
    pose proof (split_line_some _ _ _ Sp) as Hsplit.
    assert (Hr : (String.length r < f)%nat).
    { rewrite Hsplit, slength_app in Hlen; simpl in Hlen; lia. }
    destruct (IH r Hr Hs) as [pre [post [Heq [Hpre Hpost]]]].
    exists (l +++ String nl pre), post; repeat split; auto.
    + rewrite Heq, sapp_assoc; reflexivity.
    + right; destruct Hpre as [->|[pre' ->]].
      * exists l; reflexivity.
      * exists (l +++ String nl pre'); rewrite sapp_assoc; reflexivity.
Qed.

(** ** The file system *)

Lemma path_eqb_true p q : path_eqb p q = true <-> p = q.
Proof. unfold path_eqb; destruct (list_eq_dec string_dec p q); split; congruence. Qed.

Lemma path_eqb_refl p : path_eqb p p = true.
Proof. apply path_eqb_true; reflexivity. Qed.

Lemma is_prefix_refl p : is_prefix p p = true.
Proof. induction p; simpl; auto; rewrite String.eqb_refl; auto. Qed.

Lemma fs_lookup_filter_other q p f :
  path_eqb q p = false ->
  fs_lookup q (filter (fun e => negb (path_eqb (fst e) p)) f) = fs_lookup q f.
Proof.
  intros Hqp; induction f as [|[q' n'] f IH]; simpl; auto.
  destruct (path_eqb q' p) eqn:E; simpl.
  - apply path_eqb_true in E; subst q'; rewrite Hqp; exact IH.
  - rewrite IH; reflexivity.
Qed.

Lemma fs_lookup_set q p n f :
  fs_lookup q (fs_set p n f) = if path_eqb q p then Some n else fs_lookup q f.
Proof.
  unfold fs_set; simpl; destruct (path_eqb q p) eqn:E; auto.
  apply fs_lookup_filter_other; exact E.
Qed.

Lemma fs_lookup_remove_tree q p f :
  fs_lookup q (fs_remove_tree p f) = if is_prefix p q then None else fs_lookup q f.
Proof.
  unfold fs_remove_tree; induction f as [|[q' n'] f IH]; simpl;
    [destruct (is_prefix p q); reflexivity|].
  destruct (is_prefix p q') eqn:E; simpl.
  - rewrite IH; destruct (path_eqb q q') eqn:Eq; auto.
    apply path_eqb_true in Eq; subst q'; rewrite E; reflexivity.
  - destruct (path_eqb q q') eqn:Eq; auto.
    apply path_eqb_true in Eq; subst q'; rewrite E; reflexivity.
Qed.

Lemma tree_present_remove_tree p f : tree_present p (fs_remove_tree p f) = false.
Proof.
  unfold tree_present, fs_remove_tree; induction f as [|[q n] f IH]; simpl; auto.
  destruct (is_prefix p q) eqn:E; simpl; auto; rewrite E; simpl; exact IH.
Qed.

Lemma filter_idem {A} (g : A -> bool) l : filter g (filter g l) = filter g l.
Proof.
  induction l as [|x l IH]; simpl; auto.
  destruct (g x) eqn:E; simpl; [rewrite E, IH|]; auto.
Qed.

Lemma existsb_filter_self p l :
  existsb (path_eqb p) (filter (fun q => negb (path_eqb q p)) l) = false.
Proof.
  induction l as [|q l IH]; simpl; auto.
  destruct (path_eqb q p) eqn:E; simpl; auto.
  destruct (path_eqb p q) eqn:E'; simpl; auto.
  apply path_eqb_true in E'; subst; rewrite path_eqb_refl in E; discriminate.
Qed.

(** ** [TemporaryDirectory] *)

Lemma mkdtemp_try_effect fuel prefix E w w1 p :
  mkdtemp_try fuel prefix E w = (w1, Ok p) ->
  w_fs w1 = fs_set p NDir (w_fs w) /\ w_live w1 = w_live w.
Proof.
  revert w; induction fuel as [|fuel IH]; intros w H; simpl in H; [discriminate|].
  unfold bind, ask, next_seq, get_fs in H; simpl in H.
  destruct (fs_lookup _ (w_fs w)) as [n|] eqn:L.
  - apply IH in H; simpl in H; exact H.
  - destruct (match env_tmpdir E with [] => Some NDir | _ => _ end) as [[|c]|];
      try discriminate.
    unfold put_fs, ret in H; simpl in H; injection H as <- <-; simpl; auto.
Qed.

Lemma TemporaryDirectory_effect prefix E w w1 p :
  TemporaryDirectory prefix E w = (w1, Ok p) ->
  w_fs w1 = fs_set p NDir (w_fs w) /\ w_live w1 = p :: w_live w.
Proof.
  unfold TemporaryDirectory, bind, get_live, set_live, ret.
  destruct (mkdtemp_try TMP_MAX prefix E w) as [w0 [p0|e]] eqn:H; [|discriminate].
  apply mkdtemp_try_effect in H as [Hf Hl].
  intros Heq; injection Heq as <- <-; simpl; rewrite Hf, Hl; auto.
Qed.

(** ** The sandbox root stays a directory *)

Lemma keeps_of_unchanged d {A} (m : M A) : fs_unchanged m -> keeps_dir d m.
Proof. intros H E w Hd; rewrite H; exact Hd. Qed.

Lemma keeps_bind d {A B} (m : M A) (k : A -> M B) :
  keeps_dir d m -> (forall a, keeps_dir d (k a)) -> keeps_dir d (bind m k).
Proof.
  intros Hm Hk E w Hd; unfold bind.
  specialize (Hm E w Hd); destruct (m E w) as [w1 [a|e]]; simpl in *; auto.
  apply Hk; exact Hm.
Qed.

Lemma unchanged_bind {A B} (m : M A) (k : A -> M B) :
  fs_unchanged m -> (forall a, fs_unchanged (k a)) -> fs_unchanged (bind m k).
Proof.
  intros Hm Hk E w; unfold bind.
  specialize (Hm E w); destruct (m E w) as [w1 [a|e]]; simpl in *; auto.
  rewrite Hk; auto.
Qed.

Lemma unchanged_ret {A} (a : A) : fs_unchanged (ret a).
Proof. intros E w; reflexivity. Qed.

Lemma unchanged_raise {A} e : fs_unchanged (@raise A e).
Proof. intros E w; reflexivity. Qed.

Lemma unchanged_lift {A} (r : res A) : fs_unchanged (lift r).
Proof. intros E w; reflexivity. Qed.

Lemma unchanged_ask : fs_unchanged ask.
Proof. intros E w; reflexivity. Qed.

Lemma unchanged_get_fs : fs_unchanged get_fs.
Proof. intros E w; reflexivity. Qed.

Lemma unchanged_log ev : fs_unchanged (log ev).
Proof. intros E w; reflexivity. Qed.

Lemma unchanged_env {A} (k : Env -> M A) :
  (forall E, fs_unchanged (k E)) -> fs_unchanged (bind ask k).
Proof. intros H; apply unchanged_bind; [apply unchanged_ask|exact H]. Qed.

Create HintDb unchanged.

#[local] Hint Resolve unchanged_ret unchanged_raise unchanged_lift unchanged_ask
  unchanged_get_fs unchanged_log : unchanged.

Ltac unchanged_auto :=
  repeat first
    [ apply unchanged_bind; [|intros]
    | progress (match goal with |- fs_unchanged (match ?x with _ => _ end) =>
                  destruct x end)
    | progress (match goal with |- fs_unchanged (if ?x then _ else _) =>
                  destruct x end) ];
  auto with unchanged.

Lemma unchanged_which b : fs_unchanged (_which_vale b).
Proof. unfold _which_vale; unchanged_auto. Qed.

Lemma unchanged_probe b : fs_unchanged (_vale_supports_stdin_flag b).
Proof. unfold _vale_supports_stdin_flag; unchanged_auto. Qed.

Lemma unchanged_run self args stdin : fs_unchanged (_run self args stdin).
Proof. unfold _run; unchanged_auto. Qed.

Lemma unchanged_path_exists p : fs_unchanged (path_exists p).
Proof. unfold path_exists; unchanged_auto. Qed.

Lemma unchanged_read_text p : fs_unchanged (read_text p).
Proof. unfold read_text; unchanged_auto. Qed.

Lemma unchanged_as_ini_text ini : fs_unchanged (_as_ini_text ini).
Proof.
  destruct ini; simpl; auto with unchanged.
  - unfold _read_ini_from_text_or_path; apply unchanged_bind; auto with unchanged.
    intros E; apply unchanged_bind; [apply unchanged_path_exists|intros b].
    destruct b; [apply unchanged_read_text|auto with unchanged].
  - unfold _read_ini_from_pathlike.
    apply unchanged_bind; [apply unchanged_path_exists|intros b].
    destruct b; [apply unchanged_read_text|auto with unchanged].
Qed.

Lemma keeps_ret d {A} (a : A) : keeps_dir d (ret a).
Proof. apply keeps_of_unchanged, unchanged_ret. Qed.

Lemma keeps_raise d {A} e : keeps_dir d (@raise A e).
Proof. apply keeps_of_unchanged, unchanged_raise. Qed.

Lemma keeps_get_fs d : keeps_dir d get_fs.
Proof. apply keeps_of_unchanged, unchanged_get_fs. Qed.

Lemma fs_lookup_set_dir d p f :
  fs_lookup d f = Some NDir -> fs_lookup d (fs_set p NDir f) = Some NDir.
Proof. intros H; rewrite fs_lookup_set; destruct (path_eqb d p); auto. Qed.

Lemma keeps_mkdirs_from d done todo : keeps_dir d (mkdirs_from done todo).
Proof.
  revert done; induction todo as [|c todo IH]; intros done; simpl.
  - apply keeps_ret.
  - intros E w Hd; unfold bind at 1, get_fs.
    destruct (fs_lookup (done ++ [c]) (w_fs w)) as [[|x]|].
    + apply IH; exact Hd.
    + destruct todo; exact Hd.
    + unfold bind, put_fs; apply IH; simpl; apply fs_lookup_set_dir; exact Hd.
Qed.

Lemma keeps_mkdir_p d p : keeps_dir d (mkdir_p p).
Proof. apply keeps_mkdirs_from. Qed.

Lemma keeps_write_file d p c : keeps_dir d (write_file p c).
Proof.
  intros E w Hd; unfold write_file, bind at 1, get_fs.
  destruct p as [|x p']; [exact Hd|].
  destruct (match removelast (x :: p') with [] => Some NDir | _ => _ end)
    as [[|y]|]; try exact Hd.
  destruct (fs_lookup (x :: p') (w_fs w)) as [[|y]|] eqn:L; try exact Hd;
    unfold put_fs; cbn [fst w_fs]; rewrite fs_lookup_set;
    destruct (path_eqb d (x :: p')) eqn:E'; auto;
    apply path_eqb_true in E'; subst d; congruence.
Qed.

Lemma keeps_materialise_tree d r m : keeps_dir d (_materialise_tree r m).
Proof.
  induction m as [|[rel c] m IH]; simpl; [apply keeps_ret|].
  apply keeps_bind; [apply keeps_mkdir_p|intros _].
  apply keeps_bind; [|intros _; exact IH].
  destruct c; [apply keeps_write_file|apply keeps_write_file|apply keeps_raise].
Qed.

Lemma keeps_copy_entries d dst st es : keeps_dir d (copy_entries dst st es).
Proof.
  induction es as [|[q n] es IH]; simpl; [apply keeps_ret|].
  apply keeps_bind; [|intros _; exact IH].
  destruct n; [apply keeps_mkdir_p|].
  apply keeps_bind; [apply keeps_mkdir_p|intros _].
  apply keeps_bind; [apply keeps_get_fs|intros f].
  destruct (fs_lookup _ f) as [[|]|]; apply keeps_write_file.
Qed.

Lemma keeps_populate_styles d sd st : keeps_dir d (_populate_styles sd st).
Proof.
  destruct st; simpl.
  - apply keeps_materialise_tree.
  - unfold _copy_styles_into; apply keeps_bind; [apply keeps_get_fs|intros f].
    destruct (fs_lookup p f) as [[|]|];
      [apply keeps_copy_entries|apply keeps_raise|apply keeps_raise].
  - apply keeps_ret.
  - apply keeps_raise.
Qed.

Lemma keeps_init_body d tp ini st vb ext sync lvl :
  keeps_dir d (init_body tp ini st vb ext sync lvl).
Proof.
  unfold init_body.
  apply keeps_bind; [apply keeps_of_unchanged, unchanged_which|intros vb'].
  apply keeps_bind; [apply keeps_of_unchanged, unchanged_probe|intros sup].
  apply keeps_bind; [apply keeps_mkdir_p|intros _].
  apply keeps_bind; [apply keeps_populate_styles|intros _].
  apply keeps_bind; [apply keeps_of_unchanged, unchanged_as_ini_text|intros t].
  apply keeps_bind; [apply keeps_write_file|intros _].
  apply keeps_bind; [|intros; apply keeps_ret].
  destruct (sync && re_search "Packages" (_force_styles_path t "styles")).
  - apply keeps_of_unchanged, unchanged_bind; [apply unchanged_run|intros; apply unchanged_ret].
  - apply keeps_ret.
Qed.

(** ** Cleanup of the temporary directory *)

(** While the directory is there, [cleanup] removes its tree, whether or
    not the finalizer is still attached. *)
Lemma tmp_cleanup_dir p E w :
  fs_lookup p (w_fs w) = Some NDir ->
  tmp_cleanup p E w =
  ({| w_fs := fs_remove_tree p (w_fs w);
      w_live := filter (fun q => negb (path_eqb q p)) (w_live w);
      w_seq := w_seq w;
      w_log := ERmtree p :: w_log w |}, Ok tt).
Proof.
  intros Hd; unfold tmp_cleanup, detach, bind, get_live, set_live, ret; simpl.
  destruct (existsb (path_eqb p) (w_live w));
    unfold tmp_rmtree, path_exists, bind, get_fs, ret, put_fs; simpl;
    rewrite Hd; simpl; try rewrite Hd; reflexivity.
Qed.

(** Once the directory is gone and the finalizer detached, [cleanup]
    changes nothing. *)
Lemma tmp_cleanup_gone p E w :
  fs_lookup p (w_fs w) = None ->
  existsb (path_eqb p) (w_live w) = false ->
  filter (fun q => negb (path_eqb q p)) (w_live w) = w_live w ->
  tmp_cleanup p E w = (w, Ok tt).
Proof.
  intros Hn Hl Hf; unfold tmp_cleanup, detach, bind, get_live, set_live, ret; simpl.
  rewrite Hl, Hf; unfold path_exists, bind, get_fs, ret; simpl; rewrite Hn.
  destruct w; reflexivity.
Qed.

Lemma exit_stack_err {A} p (body : M A) E w w1 e :
  body E w = (w1, Err e) ->
  fs_lookup p (w_fs w1) = Some NDir ->
  exit_stack p body E w =
  ({| w_fs := fs_remove_tree p (w_fs w1);
      w_live := filter (fun q => negb (path_eqb q p)) (w_live w1);
      w_seq := w_seq w1;
      w_log := ERmtree p :: w_log w1 |}, Err e).
Proof.
  intros Hb Hd; unfold exit_stack; rewrite Hb, (tmp_cleanup_dir p E w1 Hd); reflexivity.
Qed.

Lemma is_prefix_of_eqb p q : path_eqb q p = true -> is_prefix p q = true.
Proof. intros H; apply path_eqb_true in H; subst; apply is_prefix_refl. Qed.

Lemma init_body_keeps_tmp tp ini st vb ext sync lvl E w :
  fs_lookup tp (w_fs w) = Some NDir ->
  fs_lookup tp (w_fs (fst (init_body tp ini st vb ext sync lvl E w))) = Some NDir.
Proof. apply keeps_init_body. Qed.

Lemma bind_ok {A B} (m : M A) (k : A -> M B) E w w' b :
  bind m k E w = (w', Ok b) ->
  exists w1 a, m E w = (w1, Ok a) /\ k a E w1 = (w', Ok b).
Proof.
  unfold bind; destruct (m E w) as [w1 [a|e]]; intros H; [|discriminate].
  exists w1, a; auto.
Qed.

Ltac peel H := apply bind_ok in H as (? & ? & ? & H); cbv beta zeta in H.

Lemma init_body_ok tp ini st vb ext sync lvl E w w' h :
  init_body tp ini st vb ext sync lvl E w = (w', Ok h) ->
  tmp h = tp /\ root h = tp.
Proof.
  intros H; unfold init_body in H.
  do 7 peel H; unfold ret in H; injection H as _ <-; simpl; auto.
Qed.

Lemma TemporaryDirectory_dir prefix E w w1 p :
  TemporaryDirectory prefix E w = (w1, Ok p) -> fs_lookup p (w_fs w1) = Some NDir.
Proof.
  intros H; apply TemporaryDirectory_effect in H as [-> _].
  rewrite fs_lookup_set, path_eqb_refl; reflexivity.
Qed.

Lemma Valedate_init_split ini st b ext sync lvl E w p w1 :
  TemporaryDirectory "valedate-" E w = (w1, Ok p) ->
  Valedate_init ini st b ext sync lvl E w
  = exit_stack p (init_body p ini st b ext sync lvl) E w1.
Proof. intros H; unfold Valedate_init, bind at 1; rewrite H; reflexivity. Qed.

(** ** The decoder's output is empty only when nothing was decoded *)

Lemma dict_set_nonempty {A} k (v : A) o : dict_set k v o <> [].
Proof. destruct o as [|[k' v'] o]; simpl; [discriminate|destruct (String.eqb k k'); discriminate]. Qed.

Lemma decode_files_nonempty o files out :
  decode_files o files = Ok out -> (o = [] -> files <> []) -> out <> [].
Proof.
  revert o; induction files as [|x files IH]; intros o H Ho; simpl in H.
  - injection H as <-; intros ->; apply (Ho eq_refl); reflexivity.
  - destruct (getitem x "Path") as [p|]; [|discriminate]; simpl in H.
    destruct (getitem x "Alerts") as [a|]; [|discriminate]; simpl in H.
    destruct (_to_alerts a) as [ds|]; [|discriminate]; simpl in H.
    apply (IH _ H); intros Hn; exfalso; exact (dict_set_nonempty _ _ _ Hn).
Qed.

Lemma decode_by_path_nonempty kv out :
  decode_by_path kv = Ok out -> kv <> [] -> out <> [].
Proof.
  destruct kv as [|[k a] kv]; intros H Hne; [congruence|]; simpl in H.
  destruct (_to_alerts a) as [ds|]; [|discriminate]; simpl in H.
  destruct (decode_by_path kv) as [rest|]; [|discriminate]; simpl in H.
  injection H as <-; discriminate.
Qed.

(** * Claims *)

(** ** C2 *)

(** C2 (counterexample): the array [[1]] and the object [{"a": 1}] are
    none of the three documented shapes, yet decoding them raises
    instead of returning an empty mapping: every array falls into
    [case list()] and every object into [case dict()]. *)
Lemma C2_counterexample :
  decode_value (VList [VInt 1]) = Err ValidationError
  /\ decode_value (VDict [("a", VInt 1)]) = Err ValidationError.
Proof. split; reflexivity. Qed.

(** C2 (amended): a parsed JSON value decodes to the empty mapping
    exactly when it is null, a boolean, a number, a string or the empty
    object.  Every array and every non-empty object is taken by one of
    the three decoding cases and either decodes to a non-empty mapping or
    raises.  (Tuples, which [msgspec.json.decode] never produces, are left
    out.) *)
Theorem C2_decodes_empty_iff_scalar_or_empty_object :
  forall v : pyval,
    match v with
    | VTuple _ => True
    | _ => decode_value v = Ok []
           <-> match v with
               | VDict kv => kv = []
               | VList _ => False
               | _ => True
               end
    end.
Proof.
  intros v; destruct v as [|b|z|s|l|l|kv];
    [split; intros _; [exact I|reflexivity]..
    |
    |exact I
    |].
  - split; [|intros []].
    destruct l as [|first l]; unfold decode_value; cbv beta iota.
    + discriminate.
    + destruct (has_path_and_alerts first).
      * intros H; exact (decode_files_nonempty _ _ _ H ltac:(discriminate) eq_refl).
      * destruct (_to_alerts (VList (first :: l))); discriminate.
  - split; [|intros ->; reflexivity].
    intros H; destruct kv as [|x kv]; [reflexivity|].
    exfalso; exact (decode_by_path_nonempty _ _ H ltac:(discriminate) eq_refl).
Qed.

(** ** C3 *)

(** C3 (counterexample): an alert carrying Check, Message and Severity
    still fails to decode when an optional field has the wrong type
    (here [Line] is a string), so failure is not equivalent to a missing
    required field. *)
Lemma C3_counterexample :
  (forall k, In k ["Check"; "Message"; "Severity"] ->
     exists v, match sample_alert_bad_line with
               | VDict d => dict_get k d = Some v | _ => False end)
  /\ _to_alerts (VList [sample_alert_bad_line]) = Err ValidationError.
Proof.
  split; [|reflexivity].
  intros k [<-|[<-|[<-|[]]]]; simpl; eexists; reflexivity.
Qed.

(** C3 (amended): an alert object missing Check, Message or Severity
    makes the decoding of the whole alert list fail with a validation
    error (it is never dropped); when Check, Message and Severity are
    strings and no optional field is present, the alert decodes with
    Line none, Span (0,0) and Link, Description, Match and Action none.
    (Decoding also fails when a present field has the wrong type.) *)
Theorem C3_required_fields_and_defaults :
  (forall d l1 l2,
     dict_get "Check" d = None \/ dict_get "Message" d = None
     \/ dict_get "Severity" d = None ->
     _to_alerts (VList (l1 ++ VDict d :: l2)) = Err ValidationError)
  /\ (forall d c m s,
     dict_get "Check" d = Some (VStr c) ->
     dict_get "Message" d = Some (VStr m) ->
     dict_get "Severity" d = Some (VStr s) ->
     dict_get "Line" d = None -> dict_get "Span" d = None ->
     dict_get "Link" d = None -> dict_get "Description" d = None ->
     dict_get "Match" d = None -> dict_get "Action" d = None ->
     conv_diagnostic (VDict d)
     = Ok {| check := c; message := m; severity := s; line := None;
             span := (0, 0); link := None; description := None;
             match_ := None; action := None |}).
Proof.
  split.
  - intros d l1 l2 Hmiss; simpl.
    apply mapR_fails_at; [apply only_validation_conv_diagnostic|reflexivity|].
    simpl; unfold field_req.
    destruct Hmiss as [H|[H|H]].
    + rewrite H; reflexivity.
    + destruct (dict_get "Check" d) as [v|]; simpl; [|reflexivity].
      pose proof (only_validation_conv_str v) as Hv.
      destruct (conv_str v); simpl; [|simpl in Hv; subst; reflexivity].
      rewrite H; reflexivity.
    + destruct (dict_get "Check" d) as [v|]; simpl; [|reflexivity].
      pose proof (only_validation_conv_str v) as Hv.
      destruct (conv_str v); simpl; [|simpl in Hv; subst; reflexivity].
      destruct (dict_get "Message" d) as [v'|]; simpl; [|reflexivity].
      pose proof (only_validation_conv_str v') as Hv'.
      destruct (conv_str v'); simpl; [|simpl in Hv'; subst; reflexivity].
      rewrite H; reflexivity.
  - intros d c m s Hc Hm Hs Hl Hsp Hlk Hd Hmt Ha; simpl.
    unfold field_req, field_opt.
    rewrite Hc, Hm, Hs, Hl, Hsp, Hlk, Hd, Hmt, Ha; reflexivity.
Qed.

Lemma C3_required_fields_and_defaults_witness :
  _to_alerts (VList ([] ++ VDict [("Check", VStr "Test.NoFoo"); ("Severity", VStr "warning")] :: []))
  = Err ValidationError
  /\ conv_diagnostic (VDict [("Check", VStr "Test.NoFoo"); ("Message", VStr "m");
                             ("Severity", VStr "warning")])
     = Ok {| check := "Test.NoFoo"; message := "m"; severity := "warning"; line := None;
             span := (0, 0); link := None; description := None;
             match_ := None; action := None |}.
Proof.
  split.
  - apply (proj1 C3_required_fields_and_defaults); right; left; reflexivity.
  - apply (proj2 C3_required_fields_and_defaults); reflexivity.
Defined.


(** ** C6 *)

(** C6: for the process [_run] spawns, an exit code of at least 2 raises
    [ValeExecutionError] with that code and the stderr bytes decoded with
    replacement; any code below 2 (0, 1, or a negative signal code) is no
    error and returns the stdout bytes decoded with replacement.  The
    world is left as it was. *)
Theorem C6_run_exit_code_threshold :
  forall E w self args stdin proc,
    env_run E (vale_bin self :: ("--config=" +++ path_str (ini_path self)) :: args)
      (Some (root self)) (option_map encode_utf8 stdin) = Some proc ->
    (2 <= returncode proc ->
       _run self args stdin E w
       = (w, Err (ValeExecutionError (returncode proc) (decode_replace (stderr proc)))))
    /\ (returncode proc < 2 ->
       _run self args stdin E w = (w, Ok (decode_replace (stdout proc)))).
Proof.
  intros E w self args stdin proc Hrun; unfold _run, bind, ask; cbv beta iota.
  rewrite Hrun; unfold _VALE_RUNTIME_FAILURE_EXIT.
  split; intros Hrc.
  - apply Z.leb_le in Hrc; rewrite Hrc; reflexivity.
  - destruct (2 <=? returncode proc) eqn:E2; [apply Z.leb_le in E2; lia|reflexivity].
Qed.

Lemma C6_run_exit_code_threshold_witness :
  _run sample_handle ["--version"] None (sample_env (fun _ => None)) sample_world
  = (sample_world, Ok [])
  /\ _run sample_handle ["--version"] (Some "foo")
       {| env_which := fun _ => None;
          env_run := fun _ _ _ => Some {| returncode := 2; stdout := [];
                                          stderr := encode_utf8 "E" |};
          env_cwd := []; env_tmpdir := []; env_json := fun _ => None |}
       sample_world
     = (sample_world, Err (ValeExecutionError 2 [69])).
Proof.
  split.
  - apply (C6_run_exit_code_threshold (sample_env (fun _ => None)) sample_world
             sample_handle ["--version"] None
             {| returncode := 0; stdout := []; stderr := [] |}); reflexivity.
  - apply (C6_run_exit_code_threshold _ sample_world sample_handle ["--version"] (Some "foo")
             {| returncode := 2; stdout := []; stderr := encode_utf8 "E" |});
      vm_compute; first [reflexivity | discriminate].
Defined.


(** ** C8 *)

(** C8: when a mapping holds both ["__root__"] and ["top"], rendering it
    gives exactly what rendering it without the ["top"] entry gives: the
    root block comes from ["__root__"] alone and the ["top"] entry, whatever
    its value (a non-mapping included), is neither rendered nor checked. *)
Theorem C8_top_ignored_when_root_present :
  forall mapping,
    In "__root__" (map fst mapping) -> In "top" (map fst mapping) ->
    _render_mapping_ini mapping = _render_mapping_ini (drop_key "top" mapping).
Proof.
  intros mapping Hroot _; unfold _render_mapping_ini.
  rewrite dict_get_drop_other by discriminate.
  destruct (dict_get_in _ _ Hroot) as [v Hv]; rewrite Hv.
  rewrite render_sections_drop_top; reflexivity.
Qed.

Lemma C8_top_ignored_when_root_present_witness :
  _render_mapping_ini
    [("__root__", VDict [("MinAlertLevel", VStr "suggestion")]);
     ("top", VDict [("Vocab", VStr "Base")]);
     ("[*.md]", VDict [("BasedOnStyles", VStr "Test")])]
  = _render_mapping_ini
      (drop_key "top"
         [("__root__", VDict [("MinAlertLevel", VStr "suggestion")]);
          ("top", VDict [("Vocab", VStr "Base")]);
          ("[*.md]", VDict [("BasedOnStyles", VStr "Test")])]).
Proof. apply C8_top_ignored_when_root_present; simpl; auto. Defined.


(** ** C9 *)

(** C9: the empty array decodes to one entry, the synthetic ["<stdin>"]
    key with no diagnostics; so when the tool prints [[]] (and exits
    below 2), [lint] returns the empty sequence while [lint_path] returns
    the one-entry mapping keyed ["<stdin>"]. *)
Theorem C9_empty_array_decodes_to_stdin_entry :
  decode_value (VList []) = Ok [(stdin_key, [])]
  /\ forall E w self text ext lvl p lvl' proc,
    (forall cmd cwd input, env_run E cmd cwd input = Some proc) ->
    returncode proc < 2 ->
    stdout proc = encode_utf8 "[]" ->
    env_json E (text_of "[]") = Some (VList []) ->
    lint self text ext lvl E w = (w, Ok [])
    /\ lint_path self p lvl' E w = (w, Ok [(stdin_key, [])]).
Proof.
  split; [reflexivity|].
  intros E w self text ext lvl p lvl' proc Hrun Hrc Hout Hjson.
  assert (Hdec : decode_replace (stdout proc) = text_of "[]")
    by (rewrite Hout; reflexivity).
  assert (Hlt : (2 <=? returncode proc) = false) by (apply Z.leb_gt; lia).
  split; unfold lint, lint_path, _decode_vale_json, _run, bind, ask,
    _VALE_RUNTIME_FAILURE_EXIT; cbv beta iota zeta; rewrite Hrun, Hlt, Hdec;
    unfold ret; cbv beta iota; rewrite Hjson; reflexivity.
Qed.

Lemma C9_empty_array_decodes_to_stdin_entry_witness :
  lint sample_handle "foo" None None
    {| env_which := fun _ => None;
       env_run := fun _ _ _ => Some {| returncode := 0; stdout := encode_utf8 "[]";
                                       stderr := [] |};
       env_cwd := []; env_tmpdir := []; env_json := fun _ => Some (VList []) |}
    sample_world = (sample_world, Ok [])
  /\ lint_path sample_handle ["home"; "doc.md"] None
    {| env_which := fun _ => None;
       env_run := fun _ _ _ => Some {| returncode := 0; stdout := encode_utf8 "[]";
                                       stderr := [] |};
       env_cwd := []; env_tmpdir := []; env_json := fun _ => Some (VList []) |}
    sample_world = (sample_world, Ok [(stdin_key, [])]).
Proof.
  apply (proj2 C9_empty_array_decodes_to_stdin_entry _ sample_world sample_handle "foo"
           None None ["home"; "doc.md"] None
           {| returncode := 0; stdout := encode_utf8 "[]"; stderr := [] |});
    [intros; reflexivity | reflexivity | reflexivity | reflexivity].
Defined.


(** ** C10 *)

(** C10: the dispatch of a non-empty array looks at its first element
    only.  When the first element is an object with both ["Path"] and
    ["Alerts"], every element goes through the per-file loop, and any
    later element without both keys (or not an object) makes decoding
    fail; otherwise the whole array is converted as a bare alert array
    under ["<stdin>"], whatever the later elements are. *)
Theorem C10_dispatch_on_first_element :
  forall first rest,
    (has_path_and_alerts first = true ->
       decode_value (VList (first :: rest)) = decode_files [] (first :: rest)
       /\ forall x, In x rest -> has_path_and_alerts x = false ->
          exists e, decode_value (VList (first :: rest)) = Err e)
    /\ (has_path_and_alerts first = false ->
       decode_value (VList (first :: rest))
       = res_bind (_to_alerts (VList (first :: rest)))
           (fun ds => Ok [(stdin_key, ds)])).
Proof.
  intros first rest; split; intros H; unfold decode_value; cbv beta iota;
    rewrite H; [|reflexivity].
  split; [reflexivity|].
  intros x Hin Hx; apply (decode_files_fails_on_bad_element [] _ x); auto.
  right; exact Hin.
Qed.

Lemma C10_dispatch_on_first_element_witness :
  (decode_value (VList [VDict [("Path", VStr "a.md"); ("Alerts", VList [])]; VInt 1])
   = decode_files [] [VDict [("Path", VStr "a.md"); ("Alerts", VList [])]; VInt 1]
   /\ exists e,
     decode_value (VList [VDict [("Path", VStr "a.md"); ("Alerts", VList [])]; VInt 1])
     = Err e)
  /\ decode_value (VList [VDict [("Check", VStr "c")];
                          VDict [("Path", VStr "a.md"); ("Alerts", VList [])]])
     = res_bind (_to_alerts (VList [VDict [("Check", VStr "c")];
                                    VDict [("Path", VStr "a.md"); ("Alerts", VList [])]]))
         (fun ds => Ok [(stdin_key, ds)]).
Proof.
  split.
  - pose proof (proj1 (C10_dispatch_on_first_element
                         (VDict [("Path", VStr "a.md"); ("Alerts", VList [])]) [VInt 1])
                  eq_refl) as [H1 H2].
    split; [exact H1|].
    apply (H2 (VInt 1)); [simpl; auto | reflexivity].
  - apply (proj2 (C10_dispatch_on_first_element (VDict [("Check", VStr "c")])
                    [VDict [("Path", VStr "a.md"); ("Alerts", VList [])]])).
    reflexivity.
Defined.


(** ** C1 *)




(** ** C4 *)

(** C4 (counterexample): with [vale] not on the path, construction does
    fail with [ValeBinaryNotFoundError "vale"], but the log shows the
    sandbox directory [/tmp/valedate-0] created before the lookup of the
    binary, and removed afterwards. *)
Lemma C4_counterexample :
  snd (sample_init (fun _ => None)) = Err (ValeBinaryNotFoundError "vale")
  /\ w_log (fst (sample_init (fun _ => None)))
     = [ERmtree ["tmp"; "valedate-0"]; EWhich "vale"; EMkTemp ["tmp"; "valedate-0"]].
Proof. vm_compute; split; reflexivity. Qed.

(** C4 (amended): when the temporary directory has been created and the
    binary cannot be resolved, construction raises
    [ValeBinaryNotFoundError] naming the requested binary, and by then the
    sandbox tree is gone and every path outside it is as before the
    construction. *)
Theorem C4_binary_not_found_restores_disk ini st b ext sync lvl E w w1 tp :
  TemporaryDirectory "valedate-" E w = (w1, Ok tp) ->
  env_which E b = None ->
  exists w',
    Valedate_init ini st b ext sync lvl E w = (w', Err (ValeBinaryNotFoundError b))
    /\ tree_present tp (w_fs w') = false
    /\ (forall q, is_prefix tp q = false -> fs_lookup q (w_fs w') = fs_lookup q (w_fs w)).
Proof.
  intros HT Hw.
  pose proof (TemporaryDirectory_effect _ _ _ _ _ HT) as [Hf _].
  pose proof (TemporaryDirectory_dir _ _ _ _ _ HT) as Hd.
  rewrite (Valedate_init_split ini st b ext sync lvl E w tp w1 HT).
  assert (Hb : init_body tp ini st b ext sync lvl E w1 =
               ({| w_fs := w_fs w1; w_live := w_live w1; w_seq := w_seq w1;
                   w_log := EWhich b :: w_log w1 |}, Err (ValeBinaryNotFoundError b))).
  { unfold init_body, _which_vale, bind, ask, log; simpl; rewrite Hw; reflexivity. }
  rewrite (exit_stack_err tp _ E w1 _ _ Hb Hd).
  eexists; split; [reflexivity|]; simpl; split.
  - apply tree_present_remove_tree.
  - intros q Hq; rewrite fs_lookup_remove_tree, Hq, Hf, fs_lookup_set.
    destruct (path_eqb q tp) eqn:E'; auto.
    rewrite (is_prefix_of_eqb _ _ E') in Hq; discriminate.
Qed.

Lemma C4_binary_not_found_restores_disk_witness :
  exists w',
    sample_init (fun _ => None) = (w', Err (ValeBinaryNotFoundError "vale"))
    /\ tree_present ["tmp"; "valedate-0"] (w_fs w') = false
    /\ (forall q, is_prefix ["tmp"; "valedate-0"] q = false ->
                  fs_lookup q (w_fs w') = fs_lookup q (w_fs sample_world)).
Proof.
  apply (C4_binary_not_found_restores_disk _ _ _ _ _ _ (sample_env (fun _ => None))
           sample_world
           (fst (TemporaryDirectory "valedate-" (sample_env (fun _ => None)) sample_world))
           ["tmp"; "valedate-0"]); vm_compute; reflexivity.
Defined.

(** ** C5 *)

(** C5: once the temporary directory exists, a construction that raises
    raises the error of the setup steps ([init_body]: binary lookup,
    probe, styles, configuration, its write, the sync), and the sandbox
    tree has been removed by then; a construction that succeeds hands
    the still existing directory to the instance as its [tmp] and
    [root]. *)
Theorem C5_failed_init_removes_sandbox ini st b ext sync lvl E w w1 tp :
  TemporaryDirectory "valedate-" E w = (w1, Ok tp) ->
  (forall w' e, Valedate_init ini st b ext sync lvl E w = (w', Err e) ->
     tree_present tp (w_fs w') = false
     /\ exists w2, init_body tp ini st b ext sync lvl E w1 = (w2, Err e))
  /\ (forall w' h, Valedate_init ini st b ext sync lvl E w = (w', Ok h) ->
     tmp h = tp /\ root h = tp /\ fs_lookup tp (w_fs w') = Some NDir).
Proof.
  intros HT; rewrite (Valedate_init_split ini st b ext sync lvl E w tp w1 HT).
  pose proof (TemporaryDirectory_dir _ _ _ _ _ HT) as Hd.
  pose proof (keeps_init_body tp tp ini st b ext sync lvl E w1 Hd) as Hk.
  destruct (init_body tp ini st b ext sync lvl E w1) as [w2 [h|e]] eqn:Hb;
    simpl in Hk; split; intros w' x H.
  - unfold exit_stack in H; rewrite Hb in H; discriminate.
  - unfold exit_stack in H; rewrite Hb in H; injection H as <- <-.
    apply init_body_ok in Hb as [? ?]; auto.
  - rewrite (exit_stack_err tp _ E w1 w2 e Hb Hk) in H; injection H as <- <-.
    split; [apply tree_present_remove_tree|eauto].
  - rewrite (exit_stack_err tp _ E w1 w2 e Hb Hk) in H; discriminate.
Qed.

Lemma C5_failed_init_removes_sandbox_witness :
  (forall w' e, sample_init (fun _ => None) = (w', Err e) ->
     tree_present ["tmp"; "valedate-0"] (w_fs w') = false
     /\ exists w2, init_body ["tmp"; "valedate-0"]
                     (IniMapping [("__root__", VDict [("MinAlertLevel", VStr "suggestion")])])
                     StylesNone "vale" "md" false None (sample_env (fun _ => None))
                     (fst (TemporaryDirectory "valedate-" (sample_env (fun _ => None))
                             sample_world)) = (w2, Err e))
  /\ (forall w' h, sample_init (fun _ => None) = (w', Ok h) ->
     tmp h = ["tmp"; "valedate-0"] /\ root h = ["tmp"; "valedate-0"]
     /\ fs_lookup ["tmp"; "valedate-0"] (w_fs w') = Some NDir).
Proof.
  apply (C5_failed_init_removes_sandbox _ _ _ _ _ _ (sample_env (fun _ => None))
           sample_world); vm_compute; reflexivity.
Defined.

(** ** C7 *)

(** C7: after a successful construction, the first [cleanup] succeeds
    and removes the sandbox tree; a second [cleanup], or [__exit__] after
    it, raises nothing and changes nothing. *)
Theorem C7_cleanup_idempotent ini st b ext sync lvl E w w1 h :
  Valedate_init ini st b ext sync lvl E w = (w1, Ok h) ->
  exists w2,
    cleanup h E w1 = (w2, Ok tt)
    /\ tree_present (root h) (w_fs w2) = false
    /\ cleanup h E w2 = (w2, Ok tt)
    /\ __exit__ h E w2 = (w2, Ok tt).
Proof.
  intros H.
  destruct (TemporaryDirectory "valedate-" E w) as [w0 [tp|e]] eqn:HT;
    [|unfold Valedate_init, bind in H; rewrite HT in H; discriminate].
  rewrite (Valedate_init_split ini st b ext sync lvl E w tp w0 HT) in H.
  pose proof (TemporaryDirectory_dir _ _ _ _ _ HT) as Hd.
  pose proof (keeps_init_body tp tp ini st b ext sync lvl E w0 Hd) as Hk.
  unfold exit_stack in H.
  destruct (init_body tp ini st b ext sync lvl E w0) as [w' [h'|e]] eqn:Hb;
    [|destruct (tmp_cleanup tp E w') as [? [|]]; discriminate].
  injection H as <- <-; simpl in Hk.
  pose proof (init_body_ok _ _ _ _ _ _ _ _ _ _ _ Hb) as [Ht Hr].
  assert (Hgone : forall w2 : World,
            w_fs w2 = fs_remove_tree tp (w_fs w') ->
            w_live w2 = filter (fun q => negb (path_eqb q tp)) (w_live w') ->
            cleanup h' E w2 = (w2, Ok tt)).
  { intros w2 Hf Hl; unfold cleanup; rewrite Ht; apply tmp_cleanup_gone.
    - rewrite Hf, fs_lookup_remove_tree, is_prefix_refl; reflexivity.
    - rewrite Hl; apply existsb_filter_self.
    - rewrite Hl; apply filter_idem. }
  eexists; split; [unfold cleanup; rewrite Ht; apply (tmp_cleanup_dir _ _ _ Hk)|].
  split; [rewrite Hr; apply tree_present_remove_tree|].
  split; [apply Hgone; reflexivity|].
  unfold __exit__; apply Hgone; reflexivity.
Qed.

Lemma C7_cleanup_idempotent_witness :
  exists w2,
    cleanup (sample_handle) (sample_env (fun _ => Some "/usr/bin/vale"))
      (fst (sample_init (fun _ => Some "/usr/bin/vale"))) = (w2, Ok tt)
    /\ tree_present (root sample_handle) (w_fs w2) = false
    /\ cleanup sample_handle (sample_env (fun _ => Some "/usr/bin/vale")) w2 = (w2, Ok tt)
    /\ __exit__ sample_handle (sample_env (fun _ => Some "/usr/bin/vale")) w2 = (w2, Ok tt).
Proof.
  apply (C7_cleanup_idempotent
           (IniMapping [("__root__", VDict [("MinAlertLevel", VStr "suggestion")])])
           StylesNone "vale" "md" false None (sample_env (fun _ => Some "/usr/bin/vale"))
           sample_world).
  vm_compute; reflexivity.
Defined.

(** * Further properties of the code *)

(** ** The regex model of [_force_styles_path] *)

Section ForceStylesPath.

Variable d : string.
Hypothesis d_one_line : contains_char nl d = false.

Let K := "StylesPath".
Let R := "StylesPath = " +++ d.
Let sub := sub_from K R.

Lemma skip_ws_app a b :
  skip_ws (a +++ b) = match skip_ws a with EmptyString => skip_ws b | t => t +++ b end.
Proof.
  induction a as [|c a IH]; simpl; [reflexivity|].
  destruct (is_space c); [exact IH|reflexivity].
Qed.

Lemma strip_prefix_app_nl p a X :
  contains_char nl p = false ->
  strip_prefix p (a +++ String nl X)
  = match strip_prefix p a with Some a' => Some (a' +++ String nl X) | None => None end.
Proof.
  revert a; induction p as [|c p IH]; intros a Hp; [destruct a; reflexivity|].
  cbn [contains_char] in Hp; apply Bool.orb_false_iff in Hp as [Hc Hp].
  destruct a as [|c' a]; cbn [strip_prefix String.append].
  - rewrite Ascii.eqb_sym, Hc; reflexivity.
  - destruct (Ascii.eqb c c'); [apply IH; exact Hp|reflexivity].
Qed.

Lemma strip_prefix_some p x t : strip_prefix p x = Some t -> x = p +++ t.
Proof.
  revert x; induction p as [|c p IH]; intros x H; simpl in H.
  - injection H as <-; reflexivity.
  - destruct x as [|c' x]; [discriminate|].
    destruct (Ascii.eqb c c') eqn:E; [|discriminate].
    apply Ascii.eqb_eq in E; subst; simpl; f_equal; apply IH; exact H.
Qed.

Lemma split_line_none x l : split_line x = (l, None) -> x = l.
Proof.
  revert l; induction x as [|c x IH]; intros l H; simpl in H.
  - injection H as <-; reflexivity.
  - destruct (Ascii.eqb c nl); [discriminate|].
    destruct (split_line x) as [l0 r0] eqn:Ex; injection H as <- ->.
    f_equal; apply IH; reflexivity.
Qed.

Lemma split_line_one_line x l r : split_line x = (l, r) -> contains_char nl l = false.
Proof.
  revert l; induction x as [|c x IH]; intros l H; simpl in H.
  - injection H as <- _; reflexivity.
  - destruct (Ascii.eqb c nl) eqn:Ec; [injection H as <- _; reflexivity|].
    destruct (split_line x) as [l0 r0] eqn:Ex; injection H as <- ->.
    cbn [contains_char]; rewrite Ascii.eqb_sym, Ec; eapply IH; reflexivity.
Qed.

Lemma split_line_app l Y :
  contains_char nl l = false -> split_line (l +++ String nl Y) = (l, Some Y).
Proof.
  induction l as [|c l IH]; intros H; cbn [String.append split_line];
    [rewrite Ascii.eqb_refl; reflexivity|].
  cbn [contains_char] in H; apply Bool.orb_false_iff in H as [Hc H].
  rewrite Ascii.eqb_sym, Hc, IH; auto.
Qed.

Lemma rest_of_line_app a t :
  contains_char nl a = false -> rest_of_line (a +++ t) = rest_of_line t.
Proof.
  induction a as [|c a IH]; intros H; cbn [String.append rest_of_line]; [reflexivity|].
  cbn [contains_char] in H; apply Bool.orb_false_iff in H as [Hc H].
  rewrite Ascii.eqb_sym, Hc; auto.
Qed.

Lemma slength_skip_ws x : (String.length (skip_ws x) <= String.length x)%nat.
Proof. induction x as [|c x IH]; simpl; [lia|destruct (is_space c); simpl; lia]. Qed.

Lemma slength_strip_prefix p x t :
  strip_prefix p x = Some t -> (String.length t <= String.length x)%nat.
Proof. intros H; apply strip_prefix_some in H; subst; rewrite slength_app; lia. Qed.

Lemma slength_rest_of_line x : (String.length (rest_of_line x) <= String.length x)%nat.
Proof.
  induction x as [|c x IH]; simpl; [lia|destruct (Ascii.eqb c nl); simpl; lia].
Qed.

Lemma slength_directive key x rest :
  directive_at key x = Some rest -> (String.length rest <= String.length x)%nat.
Proof.
  unfold directive_at; intros H.
  pose proof (slength_skip_ws x).
  destruct (strip_prefix key (skip_ws x)) as [s2|] eqn:Sp; [|discriminate].
  apply slength_strip_prefix in Sp.
  pose proof (slength_skip_ws s2).
  destruct (skip_ws s2) as [|c s3]; [discriminate|].
  destruct (Ascii.eqb c "="); [|discriminate].
  injection H as <-; simpl in *; pose proof (slength_rest_of_line s3); lia.
Qed.

Lemma directive_first_S x rest :
  directive_at K x = Some rest -> first_nonspace x = Some "S"%char.
Proof.
  unfold directive_at, first_nonspace; intros H.
  destruct (strip_prefix K (skip_ws x)) as [s2|] eqn:Sp; [|discriminate].
  apply strip_prefix_some in Sp; rewrite Sp; reflexivity.
Qed.

Lemma directive_repl t :
  (t = "" \/ exists Y, t = String nl Y) -> directive_at K (R +++ t) = Some t.
Proof.
  intros Ht; unfold directive_at; simpl.
  rewrite rest_of_line_app by exact d_one_line.
  destruct Ht as [->|[Y ->]]; reflexivity.
Qed.

Lemma first_nonspace_repl X : first_nonspace (R +++ X) = Some "S"%char.
Proof. reflexivity. Qed.

Lemma first_nonspace_line l X :
  first_nonspace (l +++ String nl X)
  = match skip_ws l with
    | EmptyString => first_nonspace X
    | String c _ => Some c
    end.
Proof.
  unfold first_nonspace; rewrite skip_ws_app.
  destruct (skip_ws l); reflexivity.
Qed.

(** The text after the first line, shorter than the text. *)
Lemma split_line_shorter x l r :
  split_line x = (l, Some r) -> (String.length r < String.length x)%nat.
Proof.
  intros H; apply split_line_some in H; subst; rewrite slength_app; simpl; lia.
Qed.

Lemma sub_first_nonspace f x :
  (String.length x < f)%nat -> first_nonspace (sub f x) = first_nonspace x.
Proof.
  revert x; induction f as [|f IH]; intros x Hx; [lia|].
  unfold sub; simpl; destruct (directive_at K x) as [rest|] eqn:D.
  - rewrite (directive_first_S _ _ D); reflexivity.
  - destruct (split_line x) as [l [r|]] eqn:Sp.
    + pose proof (split_line_shorter _ _ _ Sp) as Hr.
      apply split_line_some in Sp; subst x.
      rewrite !first_nonspace_line.
      destruct (skip_ws l); [apply IH; lia|reflexivity].
    + apply split_line_none in Sp; subst; reflexivity.
Qed.

Lemma directive_line l X :
  contains_char nl l = false ->
  directive_at K (l +++ String nl X)
  = match skip_ws l with
    | EmptyString => directive_at K X
    | l1 =>
        match strip_prefix K l1 with
        | None => None
        | Some a =>
            match skip_ws a with
            | EmptyString =>
                match skip_ws X with
                | String c s3 => if Ascii.eqb c "=" then Some (rest_of_line s3) else None
                | EmptyString => None
                end
            | String c s3 =>
                if Ascii.eqb c "=" then Some (rest_of_line (s3 +++ String nl X)) else None
            end
        end
    end.
Proof.
  intros Hl; unfold directive_at; rewrite skip_ws_app.
  assert (Hs : contains_char nl (skip_ws l) = false).
  { clear X; induction l as [|c l IH]; simpl in *; [reflexivity|].
    apply Bool.orb_false_iff in Hl as [Hc Hl].
    destruct (is_space c); simpl; [auto|rewrite Hc; auto]. }
  destruct (skip_ws l) as [|c0 l1] eqn:Sl.
  - simpl; destruct (skip_ws X) as [|c s3]; [|destruct (Ascii.eqb c "=")]; reflexivity.
  - rewrite strip_prefix_app_nl by reflexivity.
    destruct (strip_prefix K (String c0 l1)) as [a|] eqn:Sa; [|reflexivity].
    assert (Ha : contains_char nl a = false).
    { apply strip_prefix_some in Sa; rewrite Sa in Hs.
      clear - Hs; induction K as [|c k IH]; simpl in *; auto.
      apply Bool.orb_false_iff in Hs as [_ Hs]; auto. }
    rewrite skip_ws_app.
    destruct (skip_ws a) as [|c s3] eqn:Sk; simpl.
    + destruct (skip_ws X) as [|c s3]; [|destruct (Ascii.eqb c "=")]; reflexivity.
    + destruct (Ascii.eqb c "="); reflexivity.
Qed.

Lemma sub_no_directive f x :
  (String.length x < f)%nat -> directive_at K x = None -> directive_at K (sub f x) = None.
Proof.
  revert x; induction f as [|f IH]; intros x Hx D; [lia|].
  unfold sub; simpl; rewrite D.
  destruct (split_line x) as [l [r|]] eqn:Sp.
  - pose proof (split_line_shorter _ _ _ Sp) as Hr.
    pose proof (split_line_one_line _ _ _ Sp) as Hl.
    apply split_line_some in Sp; subst x.
    rewrite directive_line in D |- * by exact Hl.
    destruct (skip_ws l) as [|c0 l1]; [apply IH; [lia|exact D]|].
    destruct (strip_prefix K (String c0 l1)) as [a|]; [|reflexivity].
    destruct (skip_ws a) as [|c s3]; [|destruct (Ascii.eqb c "="); [discriminate|reflexivity]].
    pose proof (sub_first_nonspace f r ltac:(lia)) as Hf; unfold first_nonspace in Hf.
    fold sub; destruct (skip_ws (sub f r)) as [|c' s3'], (skip_ws r) as [|c s3];
      try discriminate; [reflexivity|].
    injection Hf as ->; destruct (Ascii.eqb c "="); [discriminate|reflexivity].
  - apply split_line_none in Sp; subst; exact D.
Qed.

Lemma sub_idempotent f f' x :
  (String.length x < f)%nat -> (String.length (sub f x) < f')%nat ->
  sub f' (sub f x) = sub f x.
Proof.
  revert f' x; induction f as [|f IH]; intros f' x Hx Hs; [lia|].
  destruct f' as [|f']; [lia|].
  unfold sub in *; cbn [sub_from] in Hs |- *.
  destruct (directive_at K x) as [rest|] eqn:D.
  - pose proof (slength_directive _ _ _ D) as Hrest.
    destruct (directive_rest_shape _ _ _ D) as [->|[r ->]].
    + rewrite directive_repl by auto; reflexivity.
    + rewrite (directive_repl (String nl (sub_from K R f r))) by eauto.
      f_equal; f_equal.
      rewrite slength_app in Hs; simpl in Hrest, Hs.
      apply IH; lia.
  - destruct (split_line x) as [l [r|]] eqn:Sp.
    + pose proof (split_line_shorter _ _ _ Sp) as Hr.
      pose proof (split_line_one_line _ _ _ Sp) as Hl.
      assert (D' : directive_at K (l +++ String nl (sub_from K R f r)) = None).
      { pose proof (sub_no_directive (S f) x ltac:(lia) D) as H.
        unfold sub in H; simpl in H; rewrite D, Sp in H; exact H. }
      rewrite D', split_line_app by exact Hl.
      rewrite slength_app in Hs; simpl in Hs.
      f_equal; f_equal; apply IH; lia.
    + pose proof Sp as Sp'; apply split_line_none in Sp'; subst x.
      rewrite D, Sp; reflexivity.
Qed.

Lemma sub_identity f x :
  (String.length x < f)%nat -> re_search K x = false -> sub f x = x.
Proof.
  revert x; induction f as [|f IH]; intros x Hx Hs; [lia|].
  unfold re_search in Hs; simpl in Hs.
  destruct (directive_at K x) as [rest|] eqn:D; [discriminate|simpl in Hs].
  unfold sub; simpl; rewrite D.
  rewrite after_newlines_split in Hs.
  destruct (split_line x) as [l [r|]] eqn:Sp.
  - pose proof (split_line_shorter _ _ _ Sp) as Hr.
    apply split_line_some in Sp; subst x.
    f_equal; f_equal; apply IH; [lia|exact Hs].
  - apply split_line_none in Sp; subst; reflexivity.
Qed.

Lemma after_newlines_in a X : In X (after_newlines (a +++ String nl X)).
Proof.
  induction a as [|c a IH]; cbn [String.append after_newlines];
    [rewrite Ascii.eqb_refl; left; reflexivity|].
  destruct (Ascii.eqb c nl); [right|]; exact IH.
Qed.

Lemma has_line_search x : has_line R x -> re_search K x = true.
Proof.
  intros [pre [post [-> [Hpre Hpost]]]].
  unfold re_search; apply existsb_exists.
  exists (R +++ post); split.
  - destruct Hpre as [->|[pre' ->]]; [left; reflexivity|].
    right; rewrite sapp_assoc; simpl; apply after_newlines_in.
  - rewrite directive_repl; [reflexivity|].
    destruct Hpost as [->|[p' ->]]; eauto.
Qed.

End ForceStylesPath.

(** [_force_styles_path] is idempotent: forcing the styles path of a
    text whose styles path has already been forced to [styles_dirname]
    changes nothing, for a directory name with neither a newline nor a
    backslash ([re.sub] expands backslash escapes in its replacement, so
    only a name without backslashes is inserted as written). *)
Theorem force_styles_path_idempotent t styles_dirname :
  contains_char nl styles_dirname = false ->
  contains_char (ascii_of_nat 92) styles_dirname = false ->
  _force_styles_path (_force_styles_path t styles_dirname) styles_dirname
  = _force_styles_path t styles_dirname.
Proof.
  intros Hd _.
  destruct (re_search "StylesPath" t) eqn:Ht.
  - assert (Hr : re_search "StylesPath"
                   (re_sub "StylesPath" ("StylesPath = " +++ styles_dirname) t) = true).
    { apply (has_line_search styles_dirname Hd).
      apply sub_from_has_line; [lia|exact Ht]. }
    unfold _force_styles_path; rewrite Ht; cbv zeta; rewrite Hr.
    unfold re_sub; apply (sub_idempotent styles_dirname Hd); lia.
  - assert (Hr : re_search "StylesPath"
                   (("StylesPath = " +++ styles_dirname) +++ String nl t) = true).
    { apply (has_line_search styles_dirname Hd).
      exists "", (String nl t).
      split; [reflexivity|split; [left; reflexivity|right; exists t; reflexivity]]. }
    unfold _force_styles_path; rewrite Ht; cbv zeta; rewrite Hr.
    unfold re_sub; cbn [sub_from].
    rewrite (directive_repl styles_dirname Hd (String nl t)) by eauto.
    f_equal; f_equal; apply (sub_identity styles_dirname); [|exact Ht].
    rewrite slength_app; simpl; lia.
Qed.

Lemma force_styles_path_idempotent_witness :
  _force_styles_path (_force_styles_path ("  stylesPath = x" +++ String nl "StylesPath=y") "styles") "styles"
  = _force_styles_path ("  stylesPath = x" +++ String nl "StylesPath=y") "styles".
Proof. apply force_styles_path_idempotent; reflexivity. Defined.

(** ** [_render_mapping_ini] *)

Lemma render_sections_prefix lines m1 rest :
  (forall s b, In (s, b) m1 -> String.eqb s "__root__" = false ->
               String.eqb s "top" = false -> exists kv, b = VDict kv) ->
  exists lines', render_sections lines (m1 ++ rest) = render_sections lines' rest.
Proof.
  revert lines; induction m1 as [|[s b] m1 IH]; intros lines H; simpl; [eauto|].
  destruct (String.eqb s "__root__" || String.eqb s "top") eqn:Eq.
  - apply IH; intros; eapply H; eauto; right; eauto.
  - apply Bool.orb_false_iff in Eq as [E1 E2].
    destruct (H s b (or_introl eq_refl) E1 E2) as [kv ->].
    apply IH; intros; eapply H; eauto; right; eauto.
Qed.

(** A section other than [__root__] and [top] whose body is not a
    mapping makes rendering raise [InvalidIniSectionError] naming it,
    when every section before it renders. *)
Theorem render_mapping_ini_rejects_non_mapping_section m1 section body m2 :
  String.eqb section "__root__" = false -> String.eqb section "top" = false ->
  (forall kv, body <> VDict kv) ->
  (forall s b, In (s, b) m1 -> String.eqb s "__root__" = false ->
               String.eqb s "top" = false -> exists kv, b = VDict kv) ->
  _render_mapping_ini (m1 ++ (section, body) :: m2) = Err (InvalidIniSectionError section).
Proof.
  intros H1 H2 Hb Hm1; unfold _render_mapping_ini.
  match goal with |- res_bind (render_sections ?l _) _ = _ =>
    destruct (render_sections_prefix l m1 ((section, body) :: m2) Hm1) as [l' ->] end.
  simpl; rewrite H1, H2; simpl.
  destruct body; try reflexivity; exfalso; eapply Hb; reflexivity.
Qed.

Lemma render_mapping_ini_rejects_non_mapping_section_witness :
  _render_mapping_ini ([("__root__", VStr "x"); ("[*.md]", VDict [("BasedOnStyles", VStr "Vale")])]
                       ++ ("docs", VList [VStr "a"]) :: [("top", VInt 1)])
  = Err (InvalidIniSectionError "docs").
Proof.
  apply render_mapping_ini_rejects_non_mapping_section; try reflexivity.
  - discriminate.
  - intros s b [Hin|[Hin|[]]]; injection Hin as <- <-; try discriminate; eauto.
Defined.

Lemma rstrip_rev_suffix r : exists sp, r = sp ++ rstrip_rev r.
Proof.
  induction r as [|c r IH]; simpl; [exists []; reflexivity|].
  destruct (is_space c); [|exists []; reflexivity].
  destruct IH as [sp Hsp]; exists (c :: sp); simpl; f_equal; exact Hsp.
Qed.

Lemma rstrip_rev_head r :
  rstrip_rev r = [] \/ exists c r', rstrip_rev r = c :: r' /\ is_space c = false.
Proof.
  induction r as [|c r IH]; simpl; [left; reflexivity|].
  destruct (is_space c) eqn:E; [exact IH|right; eauto].
Qed.

Lemma skip_ws_head x :
  skip_ws x = "" \/ exists c x', skip_ws x = String c x' /\ is_space c = false.
Proof.
  induction x as [|c x IH]; simpl; [left; reflexivity|].
  destruct (is_space c) eqn:E; [exact IH|right; eauto].
Qed.

Lemma string_of_list_ascii_app a b :
  string_of_list_ascii (a ++ b) = string_of_list_ascii a +++ string_of_list_ascii b.
Proof. induction a as [|c a IH]; simpl; [reflexivity|rewrite IH; reflexivity]. Qed.

(** The text [str.strip()] returns is empty, or starts and ends with a
    character that is not whitespace. *)
Lemma py_strip_shape x :
  py_strip x = ""
  \/ ((exists c y, py_strip x = String c y /\ is_space c = false)
      /\ (exists y c, py_strip x = y +++ String c "" /\ is_space c = false)).
Proof.
  unfold py_strip.
  set (L := list_ascii_of_string (skip_ws x)).
  destruct (rstrip_rev_head (rev L)) as [He|[c [r' [He Hc]]]].
  - left; rewrite He; reflexivity.
  - right; split.
    + destruct (rstrip_rev_suffix (rev L)) as [sp Hsp].
      assert (HL : L = rev (rstrip_rev (rev L)) ++ rev sp).
      { rewrite <- rev_app_distr, <- Hsp, rev_involutive; reflexivity. }
      rewrite He in HL |- *; simpl in HL |- *.
      destruct (rev r') as [|c0 r0] eqn:Hr.
      * simpl in HL |- *; exists c, ""; split; [reflexivity|exact Hc].
      * simpl in HL |- *; exists c0, (string_of_list_ascii (r0 ++ [c]));
          split; [reflexivity|].
        destruct (skip_ws_head x) as [Hs|[c1 [x' [Hs Hc1]]]];
          unfold L in HL; rewrite Hs in HL; simpl in HL; [discriminate|].
        injection HL as -> _; exact Hc1.
    + rewrite He; simpl; rewrite string_of_list_ascii_app.
      exists (string_of_list_ascii (rev r')), c; split; [reflexivity|exact Hc].
Qed.

(** The rendered configuration ends in a single newline: the text before
    it is empty, or starts and ends with a non-whitespace character. *)
Theorem render_mapping_ini_trimmed mapping out :
  _render_mapping_ini mapping = Ok out ->
  exists body, out = body +++ String nl ""
    /\ (body = ""
        \/ ((exists c y, body = String c y /\ is_space c = false)
            /\ (exists y c, body = y +++ String c "" /\ is_space c = false))).
Proof.
  unfold _render_mapping_ini.
  match goal with |- res_bind ?r _ = _ -> _ => destruct r as [lines|e] end;
    simpl; intros H; [|discriminate].
  injection H as <-; eexists; split; [reflexivity|apply py_strip_shape].
Qed.

Lemma render_mapping_ini_trimmed_witness :
  exists body,
    "MinAlertLevel = suggestion" +++ String nl (String nl "[*.md]")
      +++ String nl "BasedOnStyles = Test" +++ String nl ""
    = body +++ String nl ""
    /\ (body = ""
        \/ ((exists c y, body = String c y /\ is_space c = false)
            /\ (exists y c, body = y +++ String c "" /\ is_space c = false))).
Proof.
  apply (render_mapping_ini_trimmed
           [("__root__", VDict [("MinAlertLevel", VStr "suggestion")]);
            ("[*.md]", VDict [("BasedOnStyles", VStr "Test")])]).
  reflexivity.
Defined.

(** ** The per-file shape of [_decode_vale_json] *)

Lemma dict_get_set_same {A} k (v : A) o : dict_get k (dict_set k v o) = Some v.
Proof.
  induction o as [|[k' v'] o IH]; simpl; [rewrite String.eqb_refl; reflexivity|].
  destruct (String.eqb k k') eqn:E; simpl; [rewrite String.eqb_refl; reflexivity|].
  rewrite E; exact IH.
Qed.

Lemma dict_get_set_other {A} k k' (v : A) o :
  k <> k' -> dict_get k (dict_set k' v o) = dict_get k o.
Proof.
  intros Hne; induction o as [|[k0 v0] o IH]; simpl.
  - destruct (String.eqb k k') eqn:E; [apply String.eqb_eq in E; congruence|reflexivity].
  - destruct (String.eqb k' k0) eqn:E0; simpl.
    + apply String.eqb_eq in E0; subst k0.
      destruct (String.eqb k k') eqn:E; [apply String.eqb_eq in E; congruence|reflexivity].
    + destruct (String.eqb k k0); [reflexivity|exact IH].
Qed.

Lemma dict_set_keys {A} k (v : A) o :
  map fst (dict_set k v o) = if existsb (String.eqb k) (map fst o) then map fst o
                             else map fst o ++ [k].
Proof.
  induction o as [|[k' v'] o IH]; simpl; [reflexivity|].
  destruct (String.eqb k k') eqn:E; simpl.
  - apply String.eqb_eq in E; subst; reflexivity.
  - rewrite IH; destruct (existsb (String.eqb k) (map fst o)); reflexivity.
Qed.

Lemma dict_set_nodup {A} k (v : A) o :
  NoDup (map fst o) -> NoDup (map fst (dict_set k v o)).
Proof.
  intros H; rewrite dict_set_keys.
  destruct (existsb (String.eqb k) (map fst o)) eqn:E; [exact H|].
  apply NoDup_app; [exact H|constructor; [intros []|constructor]|].
  intros x Hx [Heq|[]]; subst x.
  assert (existsb (String.eqb k) (map fst o) = true)
    by (apply existsb_exists; exists k; split; [exact Hx|apply String.eqb_refl]).
  congruence.
Qed.

Lemma decode_files_nodup o files out :
  NoDup (map fst o) -> decode_files o files = Ok out -> NoDup (map fst out).
Proof.
  revert o; induction files as [|f files IH]; intros o Ho H; simpl in H.
  - injection H as <-; exact Ho.
  - destruct (getitem f "Path") as [p|]; [|discriminate]; simpl in H.
    destruct (getitem f "Alerts") as [a|]; [|discriminate]; simpl in H.
    destruct (_to_alerts a) as [ds|]; [|discriminate]; simpl in H.
    eapply IH; [apply dict_set_nodup; exact Ho|exact H].
Qed.

Lemma decode_files_keeps o files out k ds :
  dict_get k o = Some ds ->
  (forall g p', In g files -> getitem g "Path" = Ok p' -> py_str p' <> k) ->
  decode_files o files = Ok out -> dict_get k out = Some ds.
Proof.
  revert o; induction files as [|g files IH]; intros o Hk Hl H; simpl in H.
  - injection H as <-; exact Hk.
  - destruct (getitem g "Path") as [p|] eqn:Hp; [|discriminate]; simpl in H.
    destruct (getitem g "Alerts") as [a|]; [|discriminate]; simpl in H.
    destruct (_to_alerts a) as [ds'|]; [|discriminate]; simpl in H.
    eapply IH; [|intros; eapply Hl; [right|]; eauto|exact H].
    rewrite dict_get_set_other; [exact Hk|].
    intros Heq; eapply (Hl g p); [left; reflexivity|exact Hp|symmetry; exact Heq].
Qed.

Lemma decode_files_app o l1 l2 out :
  decode_files o (l1 ++ l2) = Ok out ->
  exists o', decode_files o l1 = Ok o' /\ decode_files o' l2 = Ok out.
Proof.
  revert o; induction l1 as [|f l1 IH]; intros o H; simpl in *; [eauto|].
  destruct (getitem f "Path") as [p|]; [|discriminate]; simpl in *.
  destruct (getitem f "Alerts") as [a|]; [|discriminate]; simpl in *.
  destruct (_to_alerts a) as [ds|]; [|discriminate]; simpl in *.
  apply IH; exact H.
Qed.

(** For an array of per-file objects, the decoded mapping has each
    reported path once, and a path holds the alerts of the last object
    that reports it ([output[path] = ...] overwrites). *)
Theorem decode_per_file_last_wins l1 file_obj l2 p a ds out :
  has_path_and_alerts (hd VNone (l1 ++ file_obj :: l2)) = true ->
  decode_value (VList (l1 ++ file_obj :: l2)) = Ok out ->
  getitem file_obj "Path" = Ok p -> getitem file_obj "Alerts" = Ok a ->
  _to_alerts a = Ok ds ->
  (forall g p', In g l2 -> getitem g "Path" = Ok p' -> py_str p' <> py_str p) ->
  NoDup (map fst out) /\ dict_get (py_str p) out = Some ds.
Proof.
  intros Hfirst Hdec Hp Ha Hds Hlater.
  assert (Hf : decode_files [] (l1 ++ file_obj :: l2) = Ok out).
  { destruct (l1 ++ file_obj :: l2) as [|first rest] eqn:E;
      [destruct l1; discriminate|].
    simpl in Hfirst; simpl in Hdec; rewrite Hfirst in Hdec; exact Hdec. }
  split; [eapply (decode_files_nodup []); [constructor|exact Hf]|].
  apply decode_files_app in Hf as [o' [_ H2]].
  simpl in H2; rewrite Hp, Ha in H2; simpl in H2; rewrite Hds in H2; simpl in H2.
  eapply decode_files_keeps; [apply dict_get_set_same|exact Hlater|exact H2].
Qed.

Lemma decode_per_file_last_wins_witness :
  NoDup (map fst (match decode_value
                           (VList ([VDict [("Path", VStr "a.md");
                                          ("Alerts", VList [VDict [("Check", VStr "c");
                                                                   ("Message", VStr "m");
                                                                   ("Severity", VStr "s")]])]]
                                   ++ VDict [("Path", VStr "a.md"); ("Alerts", VList [])]
                                   :: [VDict [("Path", VStr "b.md"); ("Alerts", VList [])]]))
                  with Ok o => o | Err _ => [] end))
  /\ dict_get "a.md"
       (match decode_value
                (VList ([VDict [("Path", VStr "a.md");
                                          ("Alerts", VList [VDict [("Check", VStr "c");
                                                                   ("Message", VStr "m");
                                                                   ("Severity", VStr "s")]])]]
                        ++ VDict [("Path", VStr "a.md"); ("Alerts", VList [])]
                        :: [VDict [("Path", VStr "b.md"); ("Alerts", VList [])]]))
        with Ok o => o | Err _ => [] end) = Some [].
Proof.
  apply (decode_per_file_last_wins
           [VDict [("Path", VStr "a.md");
                   ("Alerts", VList [VDict [("Check", VStr "c"); ("Message", VStr "m");
                                            ("Severity", VStr "s")]])]]
           (VDict [("Path", VStr "a.md"); ("Alerts", VList [])])
           [VDict [("Path", VStr "b.md"); ("Alerts", VList [])]]
           (VStr "a.md") (VList [])); try reflexivity.
  intros g p' [<-|[]] Hg; injection Hg as <-; discriminate.
Defined.


(** ** Construction *)

Lemma unchanged_fs {A} (m : M A) E w w' r :
  fs_unchanged m -> m E w = (w', r) -> w_fs w' = w_fs w.
Proof. intros Hm H; pose proof (Hm E w) as Hw; rewrite H in Hw; exact Hw. Qed.

Lemma keeps_dir_step d {A} (m : M A) E w w' r :
  keeps_dir d m -> m E w = (w', r) ->
  fs_lookup d (w_fs w) = Some NDir -> fs_lookup d (w_fs w') = Some NDir.
Proof. intros Hm H Hd; pose proof (Hm E w Hd) as Hw; rewrite H in Hw; exact Hw. Qed.

Lemma mkdirs_from_ok done todo E w w' u :
  mkdirs_from done todo E w = (w', Ok u) -> todo <> [] ->
  fs_lookup (done ++ todo) (w_fs w') = Some NDir.
Proof.
  revert done w; induction todo as [|c todo IH]; intros done w H Hne; [congruence|].
  simpl in H; unfold bind at 1, get_fs in H.
  replace (done ++ c :: todo) with ((done ++ [c]) ++ todo)
    by (rewrite <- app_assoc; reflexivity).
  destruct (fs_lookup (done ++ [c]) (w_fs w)) as [[|x]|] eqn:L.
  - destruct todo as [|c' todo].
    + simpl in H; unfold ret in H; injection H as <- _; rewrite app_nil_r; exact L.
    + apply (IH _ _ H); discriminate.
  - destruct todo; discriminate.
  - unfold bind, put_fs in H; destruct todo as [|c' todo].
    + cbn [mkdirs_from] in H; unfold ret in H; injection H as <- _; cbn [w_fs].
      rewrite app_nil_r, fs_lookup_set, path_eqb_refl; reflexivity.
    + apply (IH _ _ H); discriminate.
Qed.

Lemma write_file_ok p c E w w' u :
  write_file p c E w = (w', Ok u) -> fs_lookup p (w_fs w') = Some (NFile c).
Proof.
  unfold write_file, bind at 1, get_fs; intros H.
  destruct p as [|x p']; [discriminate|].
  destruct (match removelast (x :: p') with [] => Some NDir | _ => _ end)
    as [[|y]|]; try discriminate.
  destruct (fs_lookup (x :: p') (w_fs w)) as [[|y]|]; try discriminate;
    unfold put_fs in H; injection H as <- _; cbn [w_fs];
    rewrite fs_lookup_set, path_eqb_refl; reflexivity.
Qed.

Lemma force_has_line t : has_line "StylesPath = styles" (_force_styles_path t "styles").
Proof.
  unfold _force_styles_path; destruct (re_search "StylesPath" t) eqn:Hs.
  - apply sub_from_has_line; auto.
  - exists "", (String nl t).
    split; [reflexivity|split; [left; reflexivity|right; exists t; reflexivity]].
Qed.

Lemma which_ok b E w w' vb :
  _which_vale b E w = (w', Ok vb) -> env_which E b = Some vb.
Proof.
  unfold _which_vale, bind, ask, log; simpl.
  destruct (env_which E b); intros H; [injection H as _ <-; reflexivity|discriminate].
Qed.

Lemma Valedate_init_ok ini st b ext sync lvl E w w' h :
  Valedate_init ini st b ext sync lvl E w = (w', Ok h) ->
  exists tp w0, TemporaryDirectory "valedate-" E w = (w0, Ok tp)
    /\ init_body tp ini st b ext sync lvl E w0 = (w', Ok h).
Proof.
  intros H.
  destruct (TemporaryDirectory "valedate-" E w) as [w0 [tp|e]] eqn:HT;
    [|unfold Valedate_init, bind in H; rewrite HT in H; discriminate].
  rewrite (Valedate_init_split ini st b ext sync lvl E w tp w0 HT) in H.
  unfold exit_stack in H.
  destruct (init_body tp ini st b ext sync lvl E w0) as [w2 [h'|e]] eqn:Hb;
    [|destruct (tmp_cleanup tp E w2) as [? [|]]; discriminate].
  injection H as <- <-; exists tp, w0; split; [reflexivity|exact Hb].
Qed.

(** A constructed harness has its sandbox directory, a [styles]
    directory in it, and [.vale.ini] in it holding the configuration
    text after [_force_styles_path], which has the line
    [StylesPath = styles]; [vale_bin] is the path [shutil.which]
    resolved. *)
Theorem Valedate_init_writes_sandbox ini st b ext sync lvl E w w' h :
  Valedate_init ini st b ext sync lvl E w = (w', Ok h) ->
  env_which E b = Some (vale_bin h)
  /\ fs_lookup (root h) (w_fs w') = Some NDir
  /\ fs_lookup (root h ++ ["styles"]) (w_fs w') = Some NDir
  /\ ini_path h = root h ++ [".vale.ini"]
  /\ exists t, fs_lookup (ini_path h) (w_fs w') = Some (NFile (_force_styles_path t "styles"))
       /\ has_line "StylesPath = styles" (_force_styles_path t "styles").
Proof.
  intros H; apply Valedate_init_ok in H as (tp & w0 & HT & Hb).
  pose proof (TemporaryDirectory_dir _ _ _ _ _ HT) as Hd.
  pose proof (keeps_dir_step _ _ _ _ _ _ (keeps_init_body tp tp ini st b ext sync lvl) Hb Hd)
    as Hroot.
  unfold init_body in Hb.
  apply bind_ok in Hb as (w1 & vb & H1 & Hb); cbv beta zeta in Hb.
  apply bind_ok in Hb as (w2 & sup & H2 & Hb); cbv beta zeta in Hb.
  apply bind_ok in Hb as (w3 & u3 & H3 & Hb); cbv beta zeta in Hb.
  apply bind_ok in Hb as (w4 & u4 & H4 & Hb); cbv beta zeta in Hb.
  apply bind_ok in Hb as (w5 & t & H5 & Hb); cbv beta zeta in Hb.
  apply bind_ok in Hb as (w6 & u6 & H6 & Hb); cbv beta zeta in Hb.
  apply bind_ok in Hb as (w7 & u7 & H7 & Hb); cbv beta zeta in Hb.
  unfold ret in Hb; injection Hb as <- <-; cbn [root vale_bin ini_path].
  assert (H7fs : w_fs w7 = w_fs w6).
  { eapply unchanged_fs; [|exact H7].
    destruct (sync && re_search "Packages" (_force_styles_path t "styles")).
    - apply unchanged_bind; [apply unchanged_run|intros; apply unchanged_ret].
    - apply unchanged_ret. }
  split; [eapply which_ok; exact H1|].
  split; [exact Hroot|].
  split.
  - pose proof (mkdirs_from_ok _ _ _ _ _ _ H3 ltac:(destruct tp; discriminate)) as Hs.
    simpl in Hs.
    eapply keeps_dir_step in Hs; [|apply keeps_populate_styles|exact H4].
    rewrite <- (unchanged_fs _ _ _ _ _ (unchanged_as_ini_text ini) H5) in Hs.
    eapply keeps_dir_step in Hs; [|apply keeps_write_file|exact H6].
    rewrite H7fs; exact Hs.
  - split; [reflexivity|].
    exists t; split; [|apply force_has_line].
    rewrite H7fs; eapply write_file_ok; exact H6.
Qed.

Lemma Valedate_init_writes_sandbox_witness :
  env_which (sample_env (fun _ => Some "/usr/bin/vale")) "vale" = Some (vale_bin sample_handle)
  /\ fs_lookup (root sample_handle) (w_fs (fst (sample_init (fun _ => Some "/usr/bin/vale"))))
     = Some NDir
  /\ fs_lookup (root sample_handle ++ ["styles"])
       (w_fs (fst (sample_init (fun _ => Some "/usr/bin/vale")))) = Some NDir
  /\ ini_path sample_handle = root sample_handle ++ [".vale.ini"]
  /\ exists t, fs_lookup (ini_path sample_handle)
                 (w_fs (fst (sample_init (fun _ => Some "/usr/bin/vale"))))
               = Some (NFile (_force_styles_path t "styles"))
       /\ has_line "StylesPath = styles" (_force_styles_path t "styles").
Proof.
  apply (Valedate_init_writes_sandbox
           (IniMapping [("__root__", VDict [("MinAlertLevel", VStr "suggestion")])])
           StylesNone "vale" "md" false None (sample_env (fun _ => Some "/usr/bin/vale"))
           sample_world).
  vm_compute; reflexivity.
Defined.



(** ** [Valedate.cleanup] in each state of the sandbox *)

Lemma in_filter_neq p l : ~ In p (filter (fun q => negb (path_eqb q p)) l).
Proof.
  intros Hin; apply filter_In in Hin as [_ Hq].
  rewrite path_eqb_refl in Hq; discriminate.
Qed.

(** [cleanup] removes the sandbox tree while it is a directory; when the
    directory has already been removed by someone else it returns without
    error and leaves the disk as it is; when a regular file has taken its
    place it raises [OSError].  In the first two cases the finalizer is
    detached afterwards. *)
Theorem cleanup_by_sandbox_state self E w :
  match fs_lookup (tmp self) (w_fs w) with
  | Some NDir =>
      exists w', cleanup self E w = (w', Ok tt)
                 /\ tree_present (tmp self) (w_fs w') = false
                 /\ ~ In (tmp self) (w_live w')
  | None =>
      exists w', cleanup self E w = (w', Ok tt)
                 /\ w_fs w' = w_fs w /\ ~ In (tmp self) (w_live w')
  | Some (NFile _) => exists w', cleanup self E w = (w', Err OSError)
  end.
Proof.
  unfold cleanup.
  destruct (fs_lookup (tmp self) (w_fs w)) as [[|c]|] eqn:L.
  - rewrite (tmp_cleanup_dir _ _ _ L); eexists; split; [reflexivity|].
    split; [apply tree_present_remove_tree|apply in_filter_neq].
  - unfold tmp_cleanup, detach, bind, get_live, set_live, ret.
    destruct (existsb (path_eqb (tmp self)) (w_live w));
      unfold tmp_rmtree, path_exists, bind, get_fs, ret, raise; simpl;
      rewrite L; simpl; try rewrite L; eexists; reflexivity.
  - unfold tmp_cleanup, detach, bind, get_live, set_live, ret.
    destruct (existsb (path_eqb (tmp self)) (w_live w));
      unfold tmp_rmtree, path_exists, bind, get_fs, ret; simpl;
      rewrite L; simpl; try rewrite L;
      (eexists; split; [reflexivity|split; [reflexivity|apply in_filter_neq]]).
Qed.

(** ** [_materialise_tree] *)

Lemma keeps_node_step q n {A} (m : M A) E w w' r :
  keeps_node q n m -> m E w = (w', r) ->
  fs_lookup q (w_fs w) = Some n -> fs_lookup q (w_fs w') = Some n.
Proof. intros Hm H Hd; pose proof (Hm E w Hd) as Hw; rewrite H in Hw; exact Hw. Qed.

Lemma keeps_node_bind q n {A B} (m : M A) (k : A -> M B) :
  keeps_node q n m -> (forall a, keeps_node q n (k a)) -> keeps_node q n (bind m k).
Proof.
  intros Hm Hk E w Hq; unfold bind.
  pose proof (Hm E w Hq) as H1.
  destruct (m E w) as [w1 [a|e]]; [apply Hk|]; exact H1.
Qed.

Lemma keeps_node_ret q n {A} (a : A) : keeps_node q n (ret a).
Proof. intros E w H; exact H. Qed.

Lemma keeps_node_raise q n {A} e : keeps_node q n (@raise A e).
Proof. intros E w H; exact H. Qed.

Lemma fs_lookup_set_other q p n f :
  p <> q -> fs_lookup q (fs_set p n f) = fs_lookup q f.
Proof.
  intros Hne; rewrite fs_lookup_set.
  destruct (path_eqb q p) eqn:E'; [apply path_eqb_true in E'; congruence|reflexivity].
Qed.

Lemma keeps_node_mkdirs_from q n done todo : keeps_node q n (mkdirs_from done todo).
Proof.
  revert done; induction todo as [|c todo IH]; intros done E w Hq; [exact Hq|].
  cbn [mkdirs_from]; unfold bind at 1, get_fs.
  destruct (fs_lookup (done ++ [c]) (w_fs w)) as [[|x]|] eqn:L.
  - apply IH; exact Hq.
  - destruct todo; exact Hq.
  - unfold bind, put_fs.
    apply IH; cbn [w_fs].
    rewrite fs_lookup_set_other; [exact Hq|congruence].
Qed.

Lemma keeps_node_write_file q n p c : p <> q -> keeps_node q n (write_file p c).
Proof.
  intros Hne E w Hq; unfold write_file, bind at 1, get_fs.
  destruct p as [|x p']; [exact Hq|].
  destruct (match removelast (x :: p') with [] => Some NDir | _ => _ end)
    as [[|y]|]; try exact Hq.
  destruct (fs_lookup (x :: p') (w_fs w)) as [[|y]|]; try exact Hq;
    unfold put_fs; cbn [w_fs fst]; rewrite fs_lookup_set_other; auto.
Qed.

Lemma keeps_node_materialise q n root m :
  (forall rel c, In (rel, c) m -> pjoin root rel <> q) ->
  keeps_node q n (_materialise_tree root m).
Proof.
  induction m as [|[rel c] m IH]; intros Hm; [apply keeps_node_ret|].
  cbn [_materialise_tree].
  apply keeps_node_bind; [apply keeps_node_mkdirs_from|intros _].
  apply keeps_node_bind; [|intros _; apply IH; intros r c' Hin; apply (Hm r c'); right; exact Hin].
  destruct c as [s|s|];
    [apply keeps_node_write_file, (Hm rel (ContentsText s))
    |apply keeps_node_write_file, (Hm rel (ContentsBytes s))
    |apply keeps_node_raise]; left; reflexivity.
Qed.

Lemma materialise_app_ok root m1 m2 E w w' u :
  _materialise_tree root (m1 ++ m2) E w = (w', Ok u) ->
  exists w1, _materialise_tree root m1 E w = (w1, Ok tt)
             /\ _materialise_tree root m2 E w1 = (w', Ok u).
Proof.
  revert w; induction m1 as [|[rel c] m1 IH]; intros w H.
  - exists w; split; [reflexivity|exact H].
  - cbn [app _materialise_tree] in H.
    apply bind_ok in H as (w2 & u2 & H2 & H).
    apply bind_ok in H as (w3 & u3 & H3 & H).
    apply IH in H as (w1 & H1 & H4).
    exists w1; split; [|exact H4].
    cbn [_materialise_tree]; unfold bind at 1; rewrite H2.
    unfold bind at 1; rewrite H3; exact H1.
Qed.

(** After [_materialise_tree] returns, every entry of the mapping whose
    destination no later entry shares holds its contents, text or bytes,
    at [root / rel_path]. *)
Theorem materialise_tree_writes_entry root m1 rel c s m2 E w w' :
  _materialise_tree root (m1 ++ (rel, c) :: m2) E w = (w', Ok tt) ->
  c = ContentsText s \/ c = ContentsBytes s ->
  (forall rel' c', In (rel', c') m2 -> pjoin root rel' <> pjoin root rel) ->
  fs_lookup (pjoin root rel) (w_fs w') = Some (NFile s).
Proof.
  intros H Hc Hlater.
  apply materialise_app_ok in H as (w1 & _ & H).
  cbn [_materialise_tree] in H.
  apply bind_ok in H as (w2 & u2 & _ & H).
  apply bind_ok in H as (w3 & u3 & H3 & H).
  assert (Hw : fs_lookup (pjoin root rel) (w_fs w3) = Some (NFile s))
    by (destruct Hc as [->| ->]; eapply write_file_ok; exact H3).
  exact (keeps_node_step _ _ _ _ _ _ _ (keeps_node_materialise _ (NFile s) root m2 Hlater) H Hw).
Qed.

Lemma materialise_tree_writes_entry_witness :
  fs_lookup (pjoin ["tmp"] "a/x.yml")
    (w_fs (fst (_materialise_tree ["tmp"]
                  ([] ++ ("a/x.yml", ContentsText "A") :: [("b.yml", ContentsBytes "B")])
                  (sample_env (fun _ => None)) sample_world)))
  = Some (NFile "A").
Proof.
  apply (materialise_tree_writes_entry ["tmp"] [] "a/x.yml" (ContentsText "A") "A"
           [("b.yml", ContentsBytes "B")] (sample_env (fun _ => None)) sample_world).
  - vm_compute; reflexivity.
  - left; reflexivity.
  - intros r c' [Hr|[]]; injection Hr as <- <-; vm_compute; discriminate.
Defined.

(** ** [assert_has_diagnostic] *)

Lemma skip_diag_false ck mc sv ln mt d :
  skip_diag ck mc sv ln mt d = false <-> matches_filters ck mc sv ln mt d.
Proof.
  unfold skip_diag, matches_filters.
  rewrite !orb_false_iff.
  repeat match goal with |- context [match ?o with Some _ => _ | None => _ end] =>
    is_var o; destruct o end;
  repeat match goal with |- context [match ?o with Some _ => _ | None => _ end] =>
    destruct o end;
  rewrite ?negb_false_iff, ?String.eqb_eq, ?Z.eqb_eq;
  split; intros H; decompose [and or ex] H; subst;
  repeat split; try discriminate; try congruence;
  repeat match goal with
  | H : Some _ = Some _ |- _ => injection H as H; subst
  end;
  try (right; eexists; split; [reflexivity|]); auto; try (left; reflexivity);
  try congruence.
Qed.

Lemma first_unskipped_some skip diags d :
  first_unskipped skip diags = Some d <->
  exists l1 l2, diags = l1 ++ d :: l2 /\ skip d = false /\ Forall (fun x => skip x = true) l1.
Proof.
  induction diags as [|x diags IH]; cbn [first_unskipped].
  - split; [discriminate|intros (l1 & l2 & H & _)]; destruct l1; discriminate.
  - destruct (skip x) eqn:Hx.
    + rewrite IH; split.
      * intros (l1 & l2 & -> & Hd & Hl); exists (x :: l1), l2; auto.
      * intros ([|y l1] & l2 & H & Hd & Hl); injection H as <- H.
        -- subst; congruence.
        -- inversion Hl; subst; exists l1, l2; auto.
    + split.
      * intros H; injection H as <-; exists [], diags; auto.
      * intros ([|y l1] & l2 & H & Hd & Hl); injection H as <- H; [congruence|].
        inversion Hl; congruence.
Qed.

Lemma first_unskipped_none skip diags :
  first_unskipped skip diags = None <-> Forall (fun x => skip x = true) diags.
Proof.
  induction diags as [|x diags IH]; cbn [first_unskipped]; [split; auto|].
  destruct (skip x) eqn:Hx; rewrite ?IH; split; intros H.
  - constructor; auto.
  - inversion H; auto.
  - discriminate.
  - inversion H; congruence.
Qed.

(** [assert_has_diagnostic] returns the first diagnostic that passes
    every filter given (those not [None]), and raises [AssertionError]
    exactly when no diagnostic passes them all. *)
Theorem assert_has_diagnostic_first_match diags ck mc sv ln mt d :
  (assert_has_diagnostic diags ck mc sv ln mt = Returned d <->
   exists l1 l2, diags = l1 ++ d :: l2
     /\ matches_filters ck mc sv ln mt d
     /\ Forall (fun x => ~ matches_filters ck mc sv ln mt x) l1)
  /\ ((exists msg, assert_has_diagnostic diags ck mc sv ln mt = AssertionError msg) <->
      Forall (fun x => ~ matches_filters ck mc sv ln mt x) diags).
Proof.
  assert (Hskip : forall x, skip_diag ck mc sv ln mt x = true <->
                            ~ matches_filters ck mc sv ln mt x).
  { intros x; rewrite <- skip_diag_false.
    destruct (skip_diag ck mc sv ln mt x); split; congruence. }
  assert (Hall : forall l, Forall (fun x => skip_diag ck mc sv ln mt x = true) l <->
                           Forall (fun x => ~ matches_filters ck mc sv ln mt x) l).
  { intros l; split; apply Forall_impl; intros x; apply Hskip. }
  unfold assert_has_diagnostic; split.
  - destruct (first_unskipped (skip_diag ck mc sv ln mt) diags) as [d'|] eqn:Hf.
    + split.
      * intros H; injection H as ->.
        apply first_unskipped_some in Hf as (l1 & l2 & -> & Hd & Hl).
        exists l1, l2; split; [reflexivity|split; [apply skip_diag_false; exact Hd|]].
        apply Hall; exact Hl.
      * intros (l1 & l2 & Hl & Hd & Hs); f_equal.
        assert (Hf' : first_unskipped (skip_diag ck mc sv ln mt) diags = Some d)
          by (apply first_unskipped_some; exists l1, l2;
              split; [exact Hl|split; [apply skip_diag_false; exact Hd|apply Hall; exact Hs]]).
        congruence.
    + split; [discriminate|].
      intros (l1 & l2 & Hl & Hd & Hs).
      assert (Hf' : first_unskipped (skip_diag ck mc sv ln mt) diags = Some d)
        by (apply first_unskipped_some; exists l1, l2;
            split; [exact Hl|split; [apply skip_diag_false; exact Hd|apply Hall; exact Hs]]).
      congruence.
  - rewrite <- Hall, <- first_unskipped_none.
    destruct (first_unskipped (skip_diag ck mc sv ln mt) diags); split.
    + intros [msg H]; discriminate.
    + discriminate.
    + reflexivity.
    + intros _; eexists; reflexivity.
Qed.

(** ** [assert_only_checks] *)

Lemma existsb_eqb_In x l : existsb (String.eqb x) l = true <-> In x l.
Proof.
  rewrite existsb_exists; split.
  - intros (y & Hy & Hxy); apply String.eqb_eq in Hxy; subst; exact Hy.
  - intros H; exists x; split; [exact H|apply String.eqb_refl].
Qed.

Lemma dedup_In x l : In x (dedup l) <-> In x l.
Proof.
  induction l as [|y l IH]; cbn [dedup]; [tauto|].
  destruct (existsb (String.eqb y) l) eqn:Hy.
  - apply existsb_eqb_In in Hy; rewrite IH; split; [right; exact H|].
    intros [<-|H]; assumption.
  - cbn [In]; rewrite IH; tauto.
Qed.

Lemma set_eqb_spec a b : set_eqb a b = true <-> (forall x, In x a <-> In x b).
Proof.
  unfold set_eqb; rewrite andb_true_iff, !forallb_forall; split.
  - intros [H1 H2] x; split; intros Hx.
    + apply existsb_eqb_In, H1, Hx.
    + apply existsb_eqb_In, H2, Hx.
  - intros H; split; intros x Hx; apply existsb_eqb_In, H, Hx.
Qed.

(** [assert_only_checks] passes exactly when the checks that occur in
    the diagnostics are the expected checks, as sets: repetitions and
    order do not matter. *)
Theorem assert_only_checks_same_set diags expected :
  assert_only_checks diags expected = Returned tt <->
  (forall c, In c (map check diags) <-> In c expected).
Proof.
  unfold assert_only_checks.
  assert (Hs : set_eqb (dedup (map check diags)) (dedup expected) = true <->
               (forall c, In c (map check diags) <-> In c expected)).
  { rewrite set_eqb_spec; split; intros H c; specialize (H c);
      rewrite ?dedup_In in *; exact H. }
  destruct (set_eqb (dedup (map check diags)) (dedup expected)) eqn:E; cbn [negb].
  - split; [intros _; apply Hs; reflexivity|reflexivity].
  - split; [discriminate|intros H; apply Hs in H; discriminate].
Qed.


(** ** [_render_diagnostics] *)

Lemma contains_char_app c a b :
  contains_char c (a +++ b) = contains_char c a || contains_char c b.
Proof.
  induction a as [|x a IH]; [reflexivity|].
  cbn [String.append contains_char]; rewrite IH, orb_assoc; reflexivity.
Qed.

Lemma digit_not_nl k : (k < 10)%N -> Ascii.eqb nl (ascii_of_N (48 + k)) = false.
Proof.
  intros Hk; apply Bool.not_true_iff_false; intros H.
  apply Ascii.eqb_eq, (f_equal N_of_ascii) in H.
  rewrite N_ascii_embedding in H by lia.
  change (N_of_ascii nl) with 10%N in H; lia.
Qed.

Lemma digits_aux_no_nl f n acc :
  contains_char nl (digits_aux f n acc) = contains_char nl acc.
Proof.
  revert n acc; induction f as [|f IH]; intros n acc; [reflexivity|].
  cbn [digits_aux].
  assert (Hd : contains_char nl (String (ascii_of_N (48 + n mod 10)) acc)
               = contains_char nl acc).
  { cbn [contains_char]; rewrite digit_not_nl; [reflexivity|].
    apply N.mod_lt; discriminate. }
  destruct (n / 10 =? 0)%N; [exact Hd|rewrite IH; exact Hd].
Qed.

Lemma line_or_q_no_nl l : contains_char nl (line_or_q l) = false.
Proof.
  unfold line_or_q; destruct l as [z|]; [|reflexivity].
  destruct (z =? 0); [reflexivity|].
  unfold Z_to_dec, N_to_dec; destruct (z <? 0);
    rewrite ?contains_char_app, digits_aux_no_nl; reflexivity.
Qed.

Lemma split_on_free c a : contains_char c a = false -> split_on c a = [a].
Proof.
  induction a as [|x a IH]; [reflexivity|].
  cbn [contains_char split_on]; intros H; apply orb_false_iff in H as [Hx Ha].
  rewrite Ascii.eqb_sym, Hx, IH by exact Ha; reflexivity.
Qed.

Lemma split_on_app c a b :
  contains_char c a = false -> split_on c (a +++ String c b) = a :: split_on c b.
Proof.
  induction a as [|x a IH]; intros H.
  - cbn [String.append split_on]; rewrite Ascii.eqb_refl; reflexivity.
  - cbn [contains_char] in H; apply orb_false_iff in H as [Hx Ha].
    cbn [String.append split_on]; rewrite Ascii.eqb_sym, Hx, IH by exact Ha; reflexivity.
Qed.

Lemma split_on_join c l :
  l <> [] -> Forall (fun x => contains_char c x = false) l ->
  split_on c (join (String c "") l) = l.
Proof.
  induction l as [|x l IH]; intros Hne Hl; [congruence|].
  inversion Hl as [|? ? Hx Hl']; subst.
  destruct l as [|y l].
  - apply split_on_free; exact Hx.
  - change (join (String c "") (x :: y :: l))
      with (x +++ String c "" +++ join (String c "") (y :: l)).
    cbn [String.append]; rewrite split_on_app by exact Hx.
    rewrite IH; [reflexivity|discriminate|exact Hl'].
Qed.

(** When no check name and no message contains a newline, the listing of
    [_render_diagnostics] has one line per diagnostic, in order, each the
    [- check @ line n: message] rendering of its diagnostic ([?] for a
    missing or zero line). *)
Theorem render_diagnostics_one_line_each diags :
  diags <> [] ->
  Forall (fun d => contains_char nl (check d) = false
                   /\ contains_char nl (message d) = false) diags ->
  split_on nl (_render_diagnostics diags) = map render_diag diags.
Proof.
  intros Hne Hf.
  assert (Hr : _render_diagnostics diags = join (String nl "") (map render_diag diags))
    by (destruct diags; [congruence|reflexivity]).
  rewrite Hr; apply split_on_join; [destruct diags; [congruence|discriminate]|].
  apply Forall_map; eapply Forall_impl; [|exact Hf]; intros d [Hc Hm].
  unfold render_diag; rewrite !contains_char_app, Hc, Hm, line_or_q_no_nl; reflexivity.
Qed.

Lemma render_diagnostics_one_line_each_witness :
  split_on nl (_render_diagnostics
    [{| check := "Test.NoFoo"; message := "Avoid 'foo'."; severity := "warning";
        line := Some 3; span := (1, 3); link := None; description := None;
        match_ := None; action := None |};
     {| check := "Test.Bar"; message := "bar"; severity := "error";
        line := Some 0; span := (0, 0); link := None; description := None;
        match_ := None; action := None |}])
  = ["- Test.NoFoo @ line 3: Avoid 'foo'."; "- Test.Bar @ line ?: bar"].
Proof.
  rewrite render_diagnostics_one_line_each; [reflexivity|discriminate|].
  repeat constructor.
Defined.

(** ** [_force_styles_path] line by line *)















Section LinesOfText.

Variable l : string.
Variable ls : list string.


End LinesOfText.







(** Blank lines right before a directive are part of its match:
    ["a\n\nStylesPath = x"] becomes ["a\nStylesPath = styles"]. *)
Lemma force_styles_path_swallows_blank_line :
  _force_styles_path ("a" +++ String nl (String nl "StylesPath = x")) "styles"
  = "a" +++ String nl "StylesPath = styles".
Proof. vm_compute; reflexivity. Qed.

(** ** C1 *)


